(** * jetfighter: the paper intake and processing pipeline of [webapp.py]

    A shallow embedding of [parse_tweet] and [process_paper] together with
    the pieces of their environment that decide their behaviour: the
    SQLAlchemy session ([db.session.merge] / [commit]), the rq job queue,
    [tempfile.TemporaryDirectory], [os.path.basename] and the two [re]
    calls that extract the title. *)

From Stdlib Require Import String Ascii.
From stdpp Require Import gmap list.

Set Warnings "-register-all".
Local Open Scope N_scope.

(** ** Python text

    A Python 3 [str] is a sequence of Unicode code points. *)

Module Py.

Abbreviation str := (list N).

(** A literal of the source, which is ASCII throughout. *)
Fixpoint lit (s : string) : str :=
  match s with
  | EmptyString => []
  | String c s' => N_of_ascii c :: lit s'
  end.

(** [s.startswith(p)] *)
Fixpoint startswith (p s : str) : bool :=
  match p, s with
  | [], _ => true
  | _ :: _, [] => false
  | a :: p', b :: s' => (a =? b) && startswith p' s'
  end.

(** The exceptions that the modelled code can meet.  [External] stands for
    whatever a collaborator (downloader, analyzer, author lookup, database
    driver) raises; its payload tells the errors apart. *)
Inductive exn :=
| AttributeError
| KeyError
| IndexError
| TypeError
| FileExistsError
| External (what : str).

Inductive result (A : Type) :=
| Ok (a : A)
| Raise (e : exn).
Arguments Ok {A} a.
Arguments Raise {A} e.

(** JSON-shaped Python values, as the Twitter client hands them over in
    [Status.entities]. *)
Inductive value :=
| VNone
| VBool (b : bool)
| VInt (z : Z)
| VStr (s : str)
| VList (l : list value)
| VDict (d : list (str * value)).

(** [d[k]] on a dictionary built from JSON: keys are strings, the first
    binding of a key is the one a lookup sees. *)
Fixpoint dict_get (k : str) (d : list (str * value)) : option value :=
  match d with
  | [] => None
  | (k', v) :: d' => if decide (k = k') then Some v else dict_get k d'
  end.

(** [v[k]] with a string subscript. *)
Definition getitem_str (v : value) (k : str) : result value :=
  match v with
  | VDict d => match dict_get k d with Some x => Ok x | None => Raise KeyError end
  | _ => Raise TypeError
  end.

(** [v[0]]: lists and strings are indexable by position; a JSON
    dictionary has no integer key. *)
Definition getitem_0 (v : value) : result value :=
  match v with
  | VList (x :: _) => Ok x
  | VList [] => Raise IndexError
  | VStr (c :: _) => Ok (VStr [c])
  | VStr [] => Raise IndexError
  | VDict _ => Raise KeyError
  | _ => Raise TypeError
  end.

(** [s[s.rfind(sep) + 1:]]: the text after the last [sep], all of [s]
    when it has none. *)
Definition after_last (sep : N) (s : str) : str :=
  fold_left (fun seg c => if c =? sep then [] else seg ++ [c]) s [].

(** [posixpath.basename]: [p[p.rfind('/') + 1:]]. *)
Definition basename (p : str) : str := after_last 47 p.

(** [os.path.basename(v)]: anything that is not a path raises. *)
Definition os_path_basename (v : value) : result str :=
  match v with
  | VStr p => Ok (basename p)
  | _ => Raise TypeError
  end.

(** *** The two regular expressions of [parse_tweet] *)

(** [\s] on a [str] pattern: the code points Python calls whitespace. *)
Definition is_space (c : N) : bool :=
  ((9 <=? c) && (c <=? 13)) || ((28 <=? c) && (c <=? 32))
  || (c =? 133) || (c =? 160) || (c =? 5760)
  || ((8192 <=? c) && (c <=? 8202))
  || (c =? 8232) || (c =? 8233) || (c =? 8239) || (c =? 8287) || (c =? 12288).

Definition newline : N := 10.
Definition http : str := lit "http".

(** [\shttp] matched at the head of [s]. *)
Definition token_here (s : str) : bool :=
  match s with
  | [] => false
  | c :: s' => is_space c && startswith http s'
  end.

(** The pattern [(.*?)\shttp] anchored at the head of [s].  The lazy
    star first tries the rest of the pattern where it stands and only
    then takes one more character, which [.] refuses when it is a line
    feed.  The result is group 1 and the text left after the match. *)
Fixpoint match_here (s : str) : option (str * str) :=
  if token_here s then Some ([], drop 5 s)
  else match s with
       | [] => None
       | c :: s' =>
           if c =? newline then None
           else match match_here s' with
                | Some (g, rest) => Some (c :: g, rest)
                | None => None
                end
       end.

(** The leftmost match: the scan tries each start position in turn. *)
Fixpoint search (s : str) : option (str * str) :=
  match match_here s with
  | Some m => Some m
  | None => match s with
            | [] => None
            | _ :: s' => search s'
            end
  end.

(** [re.findall('(.*?)\shttp', s)]: group 1 of every match, left to
    right, each scan resuming where the previous match ended.  A match
    takes at least five characters, so [length s] rounds are enough. *)
Fixpoint findall_from (rounds : nat) (s : str) : list str :=
  match rounds with
  | O => []
  | S n => match search s with
           | Some (g, rest) => g :: findall_from n rest
           | None => []
           end
  end.

Definition re_findall (s : str) : list str := findall_from (S (List.length s)) s.

(** [l[0]] on a list of strings. *)
Definition first (l : list str) : result str :=
  match l with
  | x :: _ => Ok x
  | [] => Raise IndexError
  end.

(** [re.sub(r'[^\x00-\x7f]', r'', s)] *)
Definition re_sub_non_ascii (s : str) : str := filter (fun c => c <= 127) s.

End Py.

Import Py.

(** ** Data model *)

(** [datetime] values, as seconds since the epoch. *)
Abbreviation timestamp := Z.

(** The diagnostic payload of the analyzer is opaque to the pipeline. *)
Abbreviation data := value.

(** What [find_authors] returns: the [test_integration] test reads the
    keys ['corr'] and ['all']. *)
Record contact := Contact {
  corr : list str;
  all : list str
}.

(** Modelled from the spec: the mapped class [Biorxiv] (and its twin
    [Test]) of [models.py], which is not part of the sources.  The columns
    are the ones [webapp.py] reads and writes.  On a Python object [None]
    says that the attribute was never assigned; in a table row it is a
    NULL column. *)
Record Biorxiv := Paper {
  id : str;
  created : option timestamp;
  title : option str;
  parse_status : option bool;
  parse_data : option data;
  author_contact : option contact
}.

(** A [tweepy] status as [parse_tweet] reads it.  The client puts
    [id_str], [created_at] and [full_text] on every status it delivers;
    [entities] may be missing altogether. *)
Record Status := Tweet {
  id_str : str;
  created_at : timestamp;
  full_text : str;
  entities : option value
}.

(** Committed table rows, the payloads waiting in the rq queue, the
    temporary directories that exist, and what was printed. *)
Record world := World {
  table : gmap str Biorxiv;
  jobs : list Biorxiv;
  dirs : gset str;
  stdout : list str
}.

(** Everything outside the process that one call depends on. *)
Record env := Env {
  names : list str;
  download_paper : str -> str -> result str;
  detect_rainbow_from_file : str -> result (bool * data);
  find_authors : str -> result contact;
  merge_error : option exn;
  commit_error : option exn
}.

(** ** Effects: state that survives an exception *)

Definition M (A : Type) : Type := world -> result A * world.

Definition ret {A} (a : A) : M A := fun w => (Ok a, w).

Definition bind {A B} (m : M A) (k : A -> M B) : M B :=
  fun w => match m w with
           | (Ok a, w') => k a w'
           | (Raise e, w') => (Raise e, w')
           end.

(** A call to a collaborator whose outcome the environment fixes. *)
Definition call {A} (r : result A) : M A := fun w => (r, w).

Declare Scope py_scope.
Delimit Scope py_scope with py.
Notation "x <- m ;; k" := (bind m (fun x => k))
  (at level 100, m at next level, right associativity) : py_scope.
Notation "m ;; k" := (bind m (fun _ => k))
  (at level 100, right associativity) : py_scope.
Local Open Scope py_scope.

(** The same sequencing for code that touches no state. *)
Definition and_then {A B} (r : result A) (k : A -> result B) : result B :=
  match r with
  | Ok a => k a
  | Raise e => Raise e
  end.

Definition set_dirs (d : gset str) (w : world) : world :=
  World (table w) (jobs w) d (stdout w).
Definition set_table (t : gmap str Biorxiv) (w : world) : world :=
  World t (jobs w) (dirs w) (stdout w).
Definition set_jobs (q : list Biorxiv) (w : world) : world :=
  World (table w) q (dirs w) (stdout w).
Definition set_stdout (o : list str) (w : world) : world :=
  World (table w) (jobs w) (dirs w) o.

(** [' '.join(pieces)] *)
Fixpoint join (pieces : list str) : str :=
  match pieces with
  | [] => []
  | [p] => p
  | p :: rest => p ++ 32 :: join rest
  end.

(** [print(p1, ..., pn, end=ending)] *)
Definition print (pieces : list str) (ending : str) : M unit :=
  fun w => (Ok tt, set_stdout (stdout w ++ [join pieces ++ ending]) w).

(** ** The database session

    [db.session.merge(obj)] looks the row with the primary key of [obj] up
    (a fresh instance when there is none) and copies onto it every
    attribute that is set on [obj]; attributes that [obj] never had
    assigned stay as the row has them.  It returns the merged instance,
    which stays pending in the session until [commit]. *)

Definition new_instance (i : str) : Biorxiv := Paper i None None None None None.

Definition merge_attr {A} (src dst : option A) : option A :=
  match src with
  | Some v => Some v
  | None => dst
  end.

Definition merge_into (src dst : Biorxiv) : Biorxiv :=
  {| id := id src;
     created := merge_attr (created src) (created dst);
     title := merge_attr (title src) (title dst);
     parse_status := merge_attr (parse_status src) (parse_status dst);
     parse_data := merge_attr (parse_data src) (parse_data dst);
     author_contact := merge_attr (author_contact src) (author_contact dst) |}.

Definition db_session_merge (e : env) (obj : Biorxiv) : M Biorxiv :=
  fun w => match merge_error e with
           | Some x => (Raise x, w)
           | None => (Ok (merge_into obj (default (new_instance (id obj)) (table w !! id obj))), w)
           end.

(** [db.session.commit()] with [pending] the instance the session holds:
    the row is written, or the database refuses and nothing is. *)
Definition db_session_commit (e : env) (pending : Biorxiv) : M unit :=
  fun w => match commit_error e with
           | Some x => (Raise x, w)
           | None => (Ok tt, set_table (<[id pending := pending]> (table w)) w)
           end.

(** [process_paper.queue(obj)]: the job carries a pickled copy of the
    object as it is at this moment. *)
Definition process_paper_queue (obj : Biorxiv) : M unit :=
  fun w => (Ok tt, set_jobs (jobs w ++ [obj]) w).

(** ** [tempfile.TemporaryDirectory]

    [mkdtemp] tries candidate names until [mkdir] succeeds on one that
    does not exist yet, and gives up when it runs out of them. *)
Definition mkdtemp (e : env) : M str :=
  fun w => match List.find (fun n => bool_decide (n ∉ dirs w)) (names e) with
           | Some td => (Ok td, set_dirs ({[td]} ∪ dirs w) w)
           | None => (Raise FileExistsError, w)
           end.

(** [TemporaryDirectory.cleanup] *)
Definition cleanup (td : str) : M unit :=
  fun w => (Ok tt, set_dirs (dirs w ∖ {[td]}) w).

(** [with tempfile.TemporaryDirectory() as td: body]: [__exit__] removes
    the directory however the body ends and lets its exception through. *)
Definition with_TemporaryDirectory {A} (e : env) (body : str -> M A) : M A :=
  fun w => match mkdtemp e w with
           | (Ok td, w1) =>
               let (r, w2) := body td w1 in
               (r, snd (cleanup td w2))
           | (Raise x, w1) => (Raise x, w1)
           end.

(** ** [parse_tweet]

    The parameters [db] and [objclass] stay at their defaults: the table
    of the world is the table of the class that is instantiated. *)

(** Lines 103-104: [t.entities['urls'][0]['expanded_url']] and its
    [basename]. *)
Definition url_code (t : Status) : result str :=
  and_then (match entities t with Some v => Ok v | None => Raise AttributeError end) (fun ents =>
  and_then (getitem_str ents (lit "urls")) (fun urls =>
  and_then (getitem_0 urls) (fun u =>
  and_then (getitem_str u (lit "expanded_url")) (fun url =>
  os_path_basename url)))).

(** Lines 109-113: the text in front of the link, or the ASCII part of
    the whole text when the pattern finds nothing. *)
Definition tweet_title (text : str) : str :=
  match first (re_findall text) with
  | Ok ttl => ttl
  | Raise _ => re_sub_non_ascii text
  end.

Definition parse_tweet (e : env) (verbose : bool) (t : Status) : M unit :=
  match url_code t with
  | Raise _ =>
      print [lit "Error parsing url/code from tweet_id"; id_str t] [10]
  | Ok code =>
      let ttl := tweet_title (full_text t) in
      (if verbose then print [id_str t; take 25 ttl] [13] else ret tt) ;;
      let obj := {| id := code; created := Some (created_at t); title := Some ttl;
                    parse_status := None; parse_data := None; author_contact := None |} in
      merged <- db_session_merge e obj ;;
      db_session_commit e merged ;;
      process_paper_queue obj
  end.

(** ** [process_paper] *)

Definition set_parse (st : bool) (d : data) (obj : Biorxiv) : Biorxiv :=
  {| id := id obj; created := created obj; title := title obj;
     parse_status := Some st; parse_data := Some d;
     author_contact := author_contact obj |}.

Definition set_author_contact (a : contact) (obj : Biorxiv) : Biorxiv :=
  {| id := id obj; created := created obj; title := title obj;
     parse_status := parse_status obj; parse_data := parse_data obj;
     author_contact := Some a |}.

(** [if obj.parse_status:] *)
Definition truthy (st : option bool) : bool :=
  match st with
  | Some true => true
  | _ => false
  end.

Definition process_paper (e : env) (obj : Biorxiv) : M unit :=
  with_TemporaryDirectory e (fun td =>
    fn <- call (download_paper e (id obj) td) ;;
    res <- call (detect_rainbow_from_file e fn) ;;
    let obj := set_parse (fst res) (snd res) obj in
    obj <- (if truthy (parse_status obj)
            then a <- call (find_authors e (id obj)) ;; ret (set_author_contact a obj)
            else ret obj) ;;
    merged <- db_session_merge e obj ;;
    db_session_commit e merged).

(** * Vocabulary of the properties *)

(** A column of the row stored under a key, [None] when there is no row or
    the column is NULL. *)
Definition column {A} (f : Biorxiv -> option A) (tbl : gmap str Biorxiv) (i : str) : option A :=
  match tbl !! i with
  | Some r => f r
  | None => None
  end.

(** ** Events and what intake does with them *)

(** The object [parse_tweet] builds at lines 118-122. *)
Definition intake_obj (code : str) (t : Status) : Biorxiv :=
  {| id := code; created := Some (created_at t);
     title := Some (tweet_title (full_text t));
     parse_status := None; parse_data := None; author_contact := None |}.

Definition progress_line (verbose : bool) (t : Status) : list str :=
  if verbose then [join [id_str t; take 25 (tweet_title (full_text t))] ++ [13]] else [].

Definition error_line (t : Status) : str :=
  join [lit "Error parsing url/code from tweet_id"; id_str t] ++ [10].

(** The shape of an event whose first embedded URL is [url]. *)
Definition first_embedded_url (t : Status) (url : str) : Prop :=
  exists d u rest,
    entities t = Some (VDict d) /\
    dict_get (lit "urls") d = Some (VList (VDict u :: rest)) /\
    dict_get (lit "expanded_url") u = Some (VStr url).

(** An event whose list of embedded URLs is empty. *)
Definition no_embedded_url (t : Status) : Prop :=
  exists d, entities t = Some (VDict d) /\ dict_get (lit "urls") d = Some (VList []).

(** ** The steps of a worker run *)

(** Lines 162-163 seen from outside: what the downloader and the analyzer
    give for a paper when the file goes to directory [td]. *)
Definition analysis (e : env) (i td : str) : result (bool * data) :=
  and_then (download_paper e i td) (detect_rainbow_from_file e).

(** Lines 162-165: the object as it is handed to [db.session.merge]. *)
Definition enriched (e : env) (td : str) (obj : Biorxiv) : result Biorxiv :=
  and_then (analysis e (id obj) td) (fun res =>
    let obj' := set_parse (fst res) (snd res) obj in
    if fst res
    then and_then (find_authors e (id obj)) (fun a => Ok (set_author_contact a obj'))
    else Ok obj').

(** Lines 166-167 on the table. *)
Definition persisted (e : env) (obj : Biorxiv) (tbl : gmap str Biorxiv)
  : result unit * gmap str Biorxiv :=
  match merge_error e, commit_error e with
  | Some x, _ => (Raise x, tbl)
  | None, Some x => (Raise x, tbl)
  | None, None =>
      (Ok tt, <[id obj := merge_into obj (default (new_instance (id obj)) (tbl !! id obj))]> tbl)
  end.

(** The test [mkdtemp] puts a candidate name to. *)
Definition fresh (w : world) (n : str) : bool := bool_decide (n ∉ dirs w).

(** A computation that leaves the temporary directories as they are. *)
Definition keeps_dirs {A} (m : M A) : Prop := forall w, dirs (snd (m w)) = dirs w.

(** The download, the analysis or the author lookup of this run raises
    [x]; the lookup is only reached when the analysis flags the paper. *)
Definition collaborator_raises (e : env) (td : str) (obj : Biorxiv) (x : exn) : Prop :=
  download_paper e (id obj) td = Raise x \/
  (exists fn, download_paper e (id obj) td = Ok fn /\
              detect_rainbow_from_file e fn = Raise x) \/
  (exists fn d, download_paper e (id obj) td = Ok fn /\
                detect_rainbow_from_file e fn = Ok (true, d) /\
                find_authors e (id obj) = Raise x).

(** The operating system finds a directory name and the database accepts
    the write. *)
Definition served (e : env) (w : world) : Prop :=
  is_Some (List.find (fresh w) (names e)) /\
  merge_error e = None /\ commit_error e = None.

(** ** Authors and verdicts *)

(** A row has its authors recorded exactly when it is flagged. *)
Definition contact_iff_flagged (r : Biorxiv) : Prop :=
  is_Some (author_contact r) <-> parse_status r = Some true.

(** The analyzer of the environment gives paper [i] the verdict
    [verdict i], wherever the file is downloaded to. *)
Definition verdict_of (verdict : str -> bool) (e : env) : Prop :=
  forall i td st d, analysis e i td = Ok (st, d) -> st = verdict i.

(** The states the pipeline can be in: events are taken in, the test
    harness enqueues a bare [Test(id=...)], and workers run jobs of the
    queue.  Delivery is at least once, so a job that ran stays eligible. *)
Inductive reachable (verdict : str -> bool) : world -> Prop :=
| reach_start d o :
    reachable verdict (World ∅ [] d o)
| reach_intake e v t w :
    reachable verdict w ->
    reachable verdict (snd (parse_tweet e v t w))
| reach_test i w :
    reachable verdict w ->
    reachable verdict (set_jobs (jobs w ++ [new_instance i]) w)
| reach_worker e obj w :
    reachable verdict w ->
    obj ∈ jobs w ->
    verdict_of verdict e ->
    reachable verdict (snd (process_paper e obj w)).

(** What the induction over [reachable] carries: a row is untouched by
    any worker, or has the verdict of its paper and authors accordingly;
    a queued object has no processing results yet. *)
Definition row_ok (verdict : str -> bool) (i : str) (r : Biorxiv) : Prop :=
  (parse_status r = None /\ author_contact r = None) \/
  (parse_status r = Some (verdict i) /\
   (is_Some (author_contact r) <-> verdict i = true)).

Definition job_ok (obj : Biorxiv) : Prop :=
  parse_status obj = None /\ author_contact obj = None.

Definition pipeline_inv (verdict : str -> bool) (w : world) : Prop :=
  (forall i r, table w !! i = Some r -> row_ok verdict i r) /\
  Forall job_ok (jobs w).

(** ** Titles *)

(** The link marker (a whitespace character followed by [http]) stands at
    position [k] of the text. *)
Definition token_at (text : str) (k : nat) : Prop :=
  token_here (drop k text) = true.

Definition first_token (text : str) (k : nat) : Prop :=
  token_at text k /\ forall j, (j < k)%nat -> ~ token_at text j.

Definition no_token (text : str) : Prop := forall k, ~ token_at text k.

(** * Scenarios

    Concrete runs of the pipeline on the paper of [test_integration]. *)

Module Scenario.

Definition code : str := lit "172627v1".

Definition start : world := World ∅ [] ∅ [].

(** The authors [test_integration] expects. *)
Definition authors : contact :=
  {| corr := [lit "t.ellis@imperial.ac.uk"];
     all := [lit "o.borkowski@imperial.ac.uk"; lit "carlos.bricio@gmail.com";
             lit "g.stan@imperial.ac.uk"; lit "t.ellis@imperial.ac.uk"] |}.

(** An environment in which everything works and the analyzer answers
    [verdict]. *)
Definition lab (verdict : bool) : env :=
  {| names := [lit "/tmp/tmpk3v9"];
     download_paper := fun i td => Ok (td ++ lit "/" ++ i ++ lit ".pdf");
     detect_rainbow_from_file := fun fn => Ok (verdict, VList [VInt 2]);
     find_authors := fun i => Ok authors;
     merge_error := None;
     commit_error := None |}.

(** The same on another day: the temporary directory gets another
    name. *)
Definition lab_redelivery : env :=
  {| names := [lit "/tmp/tmpw_1c"];
     download_paper := fun i td => Ok (td ++ lit "/" ++ i ++ lit ".pdf");
     detect_rainbow_from_file := fun fn => Ok (true, VList [VInt 2]);
     find_authors := fun i => Ok authors;
     merge_error := None;
     commit_error := None |}.

(** The author page cannot be parsed. *)
Definition lab_no_authors : env :=
  {| names := [lit "/tmp/tmpk3v9"];
     download_paper := fun i td => Ok (td ++ lit "/" ++ i ++ lit ".pdf");
     detect_rainbow_from_file := fun fn => Ok (true, VList [VInt 2]);
     find_authors := fun i => Raise (External (lit "no author block"));
     merge_error := None;
     commit_error := None |}.

(** An announcement of the paper. *)
Definition announce (stamp : Z) (text : str) : Status :=
  {| id_str := lit "917000000000000001";
     created_at := stamp;
     full_text := text;
     entities := Some (VDict [(lit "urls",
       VList [VDict [(lit "expanded_url",
                      VStr (lit "http://biorxiv.org/content/172627v1"))]])]) |}.

Definition known : Status :=
  announce 1506000000 (lit "Some Title http://biorxiv.org/content/172627v1").

(** The paper announced, announced again with another title, and the
    job of the first announcement. *)
Definition first_seen : Status :=
  announce 1506000000 (lit "Old title http://biorxiv.org/content/172627v1").
Definition seen_again : Status :=
  announce 1506086400 (lit "New title http://biorxiv.org/content/172627v1").
Definition first_job : Biorxiv := intake_obj code first_seen.

Definition once : world := snd (parse_tweet (lab true) true first_seen start).
Definition twice : world := snd (parse_tweet (lab true) true seen_again once).

(** A text of two lines. *)
Definition two_lines : Status :=
  announce 1506000000 (lit "a" ++ [newline] ++ lit "b http://biorxiv.org/content/172627v1").

(** Events without a usable link. *)
Definition no_link : Status :=
  {| id_str := lit "917000000000000002"; created_at := 1506000000;
     full_text := lit "maintenance tonight";
     entities := Some (VDict [(lit "hashtags", VList []); (lit "urls", VList [])]) |}.
Definition no_entities : Status :=
  {| id_str := lit "917000000000000003"; created_at := 1506000000;
     full_text := lit "maintenance tonight"; entities := None |}.

End Scenario.

(** * The callers of [parse_tweet] and the test fixture *)

(** [for x in items: body(x)]: the first exception ends the loop. *)
Fixpoint for_each {A} (items : list A) (body : A -> M unit) : M unit :=
  match items with
  | [] => ret tt
  | x :: rest => body x ;; for_each rest body
  end.

(** [retrieve_timeline]: every status that [tweepy_api.user_timeline]
    yields goes through [parse_tweet], in the order it is yielded, with
    [verbose] at its default.  Each status comes with the environment of
    the moment it is handled. *)
Definition retrieve_timeline (user_timeline : result (list (env * Status))) : M unit :=
  timeline <- call user_timeline ;;
  for_each timeline (fun et => parse_tweet (fst et) true (snd et)).

(** [Test.query.filter_by(id=i).all()]: [id] is the primary key, so the
    list has the row stored under [i] or nothing. *)
Definition query_filter_by_id (query_error : option exn) (i : str) : M (list Biorxiv) :=
  fun w => match query_error with
           | Some x => (Raise x, w)
           | None => (Ok (option_list (table w !! i)), w)
           end.

(** [for obj in rows: db.session.delete(obj)] followed by
    [db.session.commit()]: the rows marked for deletion go at the commit,
    or the database refuses and none does. *)
Definition db_session_delete_commit (e : env) (rows : list Biorxiv) : M unit :=
  fun w => match commit_error e with
           | Some x => (Raise x, w)
           | None => (Ok tt, set_table (foldr (fun r t => delete (id r) t) (table w) rows) w)
           end.

(** The fixture [test_setup_cleanup]: the same round twice. *)
Definition test_setup_cleanup (e : env) (query_error : option exn) : M unit :=
  rows <- query_filter_by_id query_error (lit "172627v1") ;;
  db_session_delete_commit e rows ;;
  rows <- query_filter_by_id query_error (lit "172627v1") ;;
  db_session_delete_commit e rows.

(** ** Vocabulary for them *)

(** The database takes the write. *)
Definition db_works (e : env) : Prop :=
  merge_error e = None /\ commit_error e = None.

(** The job a status gives rise to, if any. *)
Definition job_of (t : Status) : list Biorxiv :=
  match url_code t with
  | Ok code => [intake_obj code t]
  | Raise _ => []
  end.

(** What [parse_tweet] prints for a status: the progress line of a status
    with a link, the error line of one without. *)
Definition printed (verbose : bool) (t : Status) : list str :=
  match url_code t with
  | Ok _ => progress_line verbose t
  | Raise _ => [error_line t]
  end.

(** The table after a status went through a working database. *)
Definition intake_table (tbl : gmap str Biorxiv) (t : Status) : gmap str Biorxiv :=
  match url_code t with
  | Ok code => <[code := merge_into (intake_obj code t)
                          (default (new_instance code) (tbl !! code))]> tbl
  | Raise _ => tbl
  end.

(** The last status of a timeline that announces paper [k]. *)
Fixpoint last_for (k : str) (timeline : list Status) : option Status :=
  match timeline with
  | [] => None
  | t :: rest =>
      match last_for k rest with
      | Some t' => Some t'
      | None => match url_code t with
                | Ok code => if decide (code = k) then Some t else None
                | Raise _ => None
                end
      end
  end.

(** One thing happens: an event is taken in, or a worker runs some job,
    in any environment. *)
Inductive pipeline_step : world -> world -> Prop :=
| step_intake e v t w : pipeline_step w (snd (parse_tweet e v t w))
| step_worker e obj w : pipeline_step w (snd (process_paper e obj w)).

(** A column that holds a value in [tbl] holds one in [tbl']. *)
Definition keeps_column {A} (f : Biorxiv -> option A) (tbl tbl' : gmap str Biorxiv) : Prop :=
  forall i, is_Some (column f tbl i) -> is_Some (column f tbl' i).

(** No row of [tbl] is missing from [tbl'] and no column that holds a
    value in [tbl] is NULL in [tbl']. *)
Definition never_cleared (tbl tbl' : gmap str Biorxiv) : Prop :=
  (forall i, is_Some (tbl !! i) -> is_Some (tbl' !! i)) /\
  keeps_column created tbl tbl' /\
  keeps_column title tbl tbl' /\
  keeps_column parse_status tbl tbl' /\
  keeps_column parse_data tbl tbl' /\
  keeps_column author_contact tbl tbl'.

(** The environment [e] with another author lookup. *)
Definition with_find_authors (f : str -> result contact) (e : env) : env :=
  {| names := names e;
     download_paper := download_paper e;
     detect_rainbow_from_file := detect_rainbow_from_file e;
     find_authors := f;
     merge_error := merge_error e;
     commit_error := commit_error e |}.

(** Every row sits under its own primary key. *)
Definition well_keyed (tbl : gmap str Biorxiv) : Prop :=
  forall i r, tbl !! i = Some r -> id r = i.

(** ** More scenarios *)

Module Backfill.

(** The database is unreachable, or drops the connection at the commit. *)
Definition db_down : env :=
  {| names := [lit "/tmp/tmpk3v9"];
     download_paper := fun i td => Ok (td ++ lit "/" ++ i ++ lit ".pdf");
     detect_rainbow_from_file := fun fn => Ok (true, VList [VInt 2]);
     find_authors := fun i => Ok Scenario.authors;
     merge_error := Some (External (lit "connection refused"));
     commit_error := None |}.

Definition commit_fails : env :=
  {| names := [lit "/tmp/tmpk3v9"];
     download_paper := fun i td => Ok (td ++ lit "/" ++ i ++ lit ".pdf");
     detect_rainbow_from_file := fun fn => Ok (true, VList [VInt 2]);
     find_authors := fun i => Ok Scenario.authors;
     merge_error := None;
     commit_error := Some (External (lit "server closed the connection")) |}.

(** Another paper. *)
Definition other_paper : Status :=
  {| id_str := lit "917000000000000004";
     created_at := 1506100000;
     full_text := lit "Another preprint http://biorxiv.org/content/190124v2";
     entities := Some (VDict [(lit "urls",
       VList [VDict [(lit "expanded_url",
                      VStr (lit "http://biorxiv.org/content/190124v2"))];
              VDict [(lit "expanded_url",
                      VStr (lit "http://example.org/elsewhere"))]])]) |}.

(** A link that ends in a slash. *)
Definition trailing_slash : Status :=
  {| id_str := lit "917000000000000005";
     created_at := 1506100000;
     full_text := lit "Some Title http://biorxiv.org/content/172627v1/";
     entities := Some (VDict [(lit "urls",
       VList [VDict [(lit "expanded_url",
                      VStr (lit "http://biorxiv.org/content/172627v1/"))]])]) |}.

(** A timeline as the client yields it, newest first: the paper announced
    again, a notice without a link, another paper, the first
    announcement. *)
Definition newest_first : list (env * Status) :=
  [(Scenario.lab true, Scenario.seen_again);
   (Scenario.lab true, Scenario.no_link);
   (Scenario.lab true, other_paper);
   (Scenario.lab true, Scenario.first_seen)].

(** After a run that flagged the paper. *)
Definition flagged : world :=
  snd (process_paper (Scenario.lab true) Scenario.first_job Scenario.once).

(** The bare object of [test_integration]. *)
Definition preobj : Biorxiv := new_instance (lit "172627v1").

End Backfill.

(** ** Papers that some run has flagged *)

(** This run returns normally and stores a positive verdict. *)
Definition flags (e : env) (obj : Biorxiv) (w : world) : bool :=
  match fst (process_paper e obj w) with
  | Ok _ => truthy (column parse_status (table (snd (process_paper e obj w))) (id obj))
  | Raise _ => false
  end.

(** The states the pipeline can be in, each with the set of the papers
    that some worker run has flagged so far.  Events are taken in, the
    test harness enqueues a bare [Test(id=...)], and workers run jobs of
    the queue, any number of times each and in any environment: the
    analyzer may give the same paper another verdict in another run. *)
Inductive reachable_flagged : gset str -> world -> Prop :=
| flagged_start d o :
    reachable_flagged ∅ (World ∅ [] d o)
| flagged_intake F e v t w :
    reachable_flagged F w ->
    reachable_flagged F (snd (parse_tweet e v t w))
| flagged_test F i w :
    reachable_flagged F w ->
    reachable_flagged F (set_jobs (jobs w ++ [new_instance i]) w)
| flagged_worker F F' e obj w :
    reachable_flagged F w ->
    obj ∈ jobs w ->
    F' = (if flags e obj w then {[id obj]} ∪ F else F) ->
    reachable_flagged F' (snd (process_paper e obj w)).

(** What the induction over [reachable_flagged] carries. *)
Definition flagged_inv (F : gset str) (w : world) : Prop :=
  (forall i r, table w !! i = Some r ->
     (is_Some (author_contact r) <-> i ∈ F) /\
     (parse_status r = Some true -> i ∈ F) /\
     (parse_status r = None -> i ∉ F)) /\
  (forall i, i ∈ F -> is_Some (table w !! i)) /\
  Forall job_ok (jobs w).

(** The clean rerun of the paper after the run that flagged it. *)
Definition clean_rerun : world :=
  snd (process_paper (Scenario.lab false) Scenario.first_job Backfill.flagged).

(** * Properties *)

(** ** Merging *)

Section Merge.

Lemma merge_attr_idem {A} (src dst : option A) :
  merge_attr src (merge_attr src dst) = merge_attr src dst.
Proof. by destruct src. Qed.

Lemma merge_into_idem (src dst : Biorxiv) :
  merge_into src (merge_into src dst) = merge_into src dst.
Proof. unfold merge_into; simpl. by rewrite !merge_attr_idem. Qed.

Lemma merge_into_id (src dst : Biorxiv) : id (merge_into src dst) = id src.
Proof. reflexivity. Qed.

End Merge.

(** ** Intake *)

Lemma parse_tweet_discards e v t w x :
  url_code t = Raise x ->
  parse_tweet e v t w = (Ok tt, set_stdout (stdout w ++ [error_line t]) w).
Proof. intros H. unfold parse_tweet. by rewrite H. Qed.

Lemma parse_tweet_stores e v t w code :
  url_code t = Ok code ->
  merge_error e = None ->
  commit_error e = None ->
  parse_tweet e v t w =
    (Ok tt,
     World (<[code := merge_into (intake_obj code t)
                        (default (new_instance code) (table w !! code))]> (table w))
           (jobs w ++ [intake_obj code t])
           (dirs w)
           (stdout w ++ progress_line v t)).
Proof.
  intros Hc Hm Hk. unfold parse_tweet. rewrite Hc.
  unfold bind, db_session_merge, db_session_commit, process_paper_queue, progress_line.
  destruct v; simpl; rewrite Hm, Hk; simpl; [done |].
  by rewrite app_nil_r.
Qed.

(** On every path intake leaves table and queue alone, or writes the one
    row and appends the one job. *)
Lemma parse_tweet_world e v t w :
  (table (snd (parse_tweet e v t w)) = table w /\
   jobs (snd (parse_tweet e v t w)) = jobs w) \/
  exists code,
    url_code t = Ok code /\
    table (snd (parse_tweet e v t w)) =
      <[code := merge_into (intake_obj code t)
                  (default (new_instance code) (table w !! code))]> (table w) /\
    jobs (snd (parse_tweet e v t w)) = jobs w ++ [intake_obj code t].
Proof.
  destruct (url_code t) as [code | x] eqn:Hc.
  - destruct (merge_error e) as [x |] eqn:Hm.
    + left. unfold parse_tweet. rewrite Hc.
      unfold bind, db_session_merge. destruct v; simpl; by rewrite Hm.
    + destruct (commit_error e) as [x |] eqn:Hk.
      * left. unfold parse_tweet. rewrite Hc.
        unfold bind, db_session_merge, db_session_commit.
        destruct v; simpl; by rewrite Hm, Hk.
      * right. exists code. by rewrite (parse_tweet_stores e v t w code).
  - left. by rewrite (parse_tweet_discards e v t w x).
Qed.

Lemma column_intake {A} (f : Biorxiv -> option A) code t tbl i :
  f (new_instance code) = None ->
  (forall dst, f (merge_into (intake_obj code t) dst) = f dst) ->
  column f (<[code := merge_into (intake_obj code t)
                (default (new_instance code) (tbl !! code))]> tbl) i
  = column f tbl i.
Proof.
  intros Hn Hf. unfold column.
  destruct (decide (code = i)) as [-> | Hne].
  - rewrite lookup_insert_eq, Hf. by destruct (tbl !! i).
  - by rewrite lookup_insert_ne.
Qed.

(** C1. Intake of an event, whether or not a row with its paper id exists
    already, leaves the [parse_status], [parse_data] and [author_contact]
    of every stored row as they were; when it stores at all, the row of the
    paper id gets the [created] and [title] of this event. *)
Theorem parse_tweet_keeps_processing_results e v t w i :
  let w' := snd (parse_tweet e v t w) in
  column parse_status (table w') i = column parse_status (table w) i /\
  column parse_data (table w') i = column parse_data (table w) i /\
  column author_contact (table w') i = column author_contact (table w) i /\
  (table w' = table w \/
   exists code, url_code t = Ok code /\
     column created (table w') code = Some (created_at t) /\
     column title (table w') code = Some (tweet_title (full_text t)) /\
     forall j, j <> code -> table w' !! j = table w !! j).
Proof.
  intros w'. subst w'.
  destruct (parse_tweet_world e v t w) as [[-> _] | (code & Hc & -> & _)].
  - repeat split; auto.
  - split; [by apply (column_intake parse_status) |].
    split; [by apply (column_intake parse_data) |].
    split; [by apply (column_intake author_contact) |].
    right. exists code. split; [done |].
    unfold column. rewrite lookup_insert_eq. simpl.
    split; [done |]. split; [done |].
    intros j Hj. by rewrite lookup_insert_ne.
Qed.

Lemma url_code_first_embedded_url t url :
  first_embedded_url t url -> url_code t = Ok (basename url).
Proof.
  intros (d & u & rest & He & Hu & Hx).
  unfold url_code. rewrite He. cbn [and_then getitem_str]. rewrite Hu.
  cbn [and_then getitem_0 getitem_str]. by rewrite Hx.
Qed.

Lemma url_code_no_embedded_url t :
  no_embedded_url t -> url_code t = Raise IndexError.
Proof.
  intros (d & He & Hu). unfold url_code. rewrite He.
  cbn [and_then getitem_str]. by rewrite Hu.
Qed.

Lemma url_code_no_entities t :
  entities t = None -> url_code t = Raise AttributeError.
Proof. intros He. unfold url_code. by rewrite He. Qed.

(** C5. The event with first embedded URL
    http://biorxiv.org/content/172627v1 and text
    "Some Title http://biorxiv.org/content/172627v1": [parse_tweet] returns
    normally, the row stored under 172627v1 has that id and the title
    "Some Title", no other row changes, and exactly one job is appended to
    the queue, carrying the record with that id, title and the creation
    time of the event. *)
Theorem parse_tweet_known_paper e v t w :
  first_embedded_url t (lit "http://biorxiv.org/content/172627v1") ->
  full_text t = lit "Some Title http://biorxiv.org/content/172627v1" ->
  merge_error e = None ->
  commit_error e = None ->
  let code := lit "172627v1" in
  let obj := Paper code (Some (created_at t)) (Some (lit "Some Title")) None None None in
  exists w' row,
    parse_tweet e v t w = (Ok tt, w') /\
    table w' !! code = Some row /\
    id row = code /\
    title row = Some (lit "Some Title") /\
    created row = Some (created_at t) /\
    (forall j, j <> code -> table w' !! j = table w !! j) /\
    jobs w' = jobs w ++ [obj].
Proof.
  intros Hu Ht Hm Hk code obj.
  apply url_code_first_embedded_url in Hu.
  change (basename _) with code in Hu.
  assert (Ho : intake_obj code t = obj).
  { unfold intake_obj, obj. rewrite Ht. reflexivity. }
  rewrite (parse_tweet_stores e v t w code Hu Hm Hk), Ho.
  eexists _, _. split; [reflexivity |].
  cbn [table jobs].
  split; [apply lookup_insert_eq |].
  do 3 (split; [reflexivity |]).
  split; [| reflexivity].
  intros j Hj. by rewrite lookup_insert_ne.
Qed.

(** C6. An event whose list of embedded URLs is empty: [parse_tweet]
    returns normally, the table and the queue are as before, and one line
    naming the event is printed. *)
Theorem parse_tweet_without_url e v t w :
  no_embedded_url t ->
  let r := parse_tweet e v t w in
  fst r = Ok tt /\
  table (snd r) = table w /\
  jobs (snd r) = jobs w /\
  stdout (snd r) = stdout w ++ [error_line t].
Proof.
  intros H r. subst r.
  by rewrite (parse_tweet_discards e v t w _ (url_code_no_embedded_url t H)).
Qed.

(** Lines 103-104 succeed on exactly the events that have a first
    embedded URL; every other shape of [entities] raises. *)
Lemma url_code_raises_iff t :
  (exists x, url_code t = Raise x) <-> ~ exists url, first_embedded_url t url.
Proof.
  split.
  - intros [x Hx] [url Hu].
    apply url_code_first_embedded_url in Hu. congruence.
  - intros Hn. unfold url_code.
    destruct (entities t) as [ents |] eqn:He; [| by eexists].
    destruct ents as [| | | | | d]; try by eexists.
    cbn [and_then getitem_str].
    destruct (dict_get (lit "urls") d) as [urls |] eqn:Hu; [| by eexists].
    cbn [and_then].
    destruct urls as [| | | s | l | d']; try by eexists.
    + destruct s; by eexists.
    + destruct l as [| u rest]; [by eexists |].
      cbn [and_then getitem_0].
      destruct u as [| | | | | du]; try by eexists.
      cbn [getitem_str].
      destruct (dict_get (lit "expanded_url") du) as [url |] eqn:Hx; [| by eexists].
      cbn [and_then].
      destruct url as [| | | p | |]; try by eexists.
      exfalso. apply Hn. exists p, d, du, rest. by repeat split.
Qed.

(** C10. Whenever lines 103-104 raise, whatever the exception and whatever
    the shape of [entities] that caused it, [parse_tweet] returns normally
    with the table and the queue as before and one line printed. *)
Theorem parse_tweet_total_on_malformed_urls e v t w x :
  url_code t = Raise x ->
  let r := parse_tweet e v t w in
  fst r = Ok tt /\
  table (snd r) = table w /\
  jobs (snd r) = jobs w /\
  stdout (snd r) = stdout w ++ [error_line t].
Proof.
  intros H r. subst r. by rewrite (parse_tweet_discards e v t w x H).
Qed.

(** ** Processing *)

Lemma find_fresh w l td : List.find (fresh w) l = Some td -> td ∉ dirs w.
Proof.
  intros H. apply find_some in H as [_ H].
  unfold fresh in H. by apply bool_decide_eq_true in H.
Qed.

Lemma remove_added (td : str) (d : gset str) : td ∉ d -> ({[td]} ∪ d) ∖ {[td]} = d.
Proof.
  intros Hn. apply set_eq. intros y.
  rewrite elem_of_difference, elem_of_union, !elem_of_singleton.
  split; [tauto |]. intros Hy. split; [by right |]. by intros ->.
Qed.

Lemma world_eta w : World (table w) (jobs w) (dirs w) (stdout w) = w.
Proof. by destruct w. Qed.

(** The whole of [process_paper] in one equation. *)
Lemma process_paper_eq e obj w :
  process_paper e obj w =
    match List.find (fresh w) (names e) with
    | None => (Raise FileExistsError, w)
    | Some td =>
        match enriched e td obj with
        | Raise x => (Raise x, w)
        | Ok obj' => (fst (persisted e obj' (table w)),
                      set_table (snd (persisted e obj' (table w))) w)
        end
    end.
Proof.
  unfold process_paper, with_TemporaryDirectory, mkdtemp.
  change (fun n => bool_decide (n ∉ dirs w)) with (fresh w).
  destruct (List.find (fresh w) (names e)) as [td |] eqn:Hf; [| done].
  apply find_fresh in Hf.
  unfold enriched, analysis, bind, call, and_then.
  destruct (download_paper e (id obj) td) as [fn | x]; simpl.
  2: { unfold set_dirs; simpl. by rewrite remove_added, world_eta. }
  destruct (detect_rainbow_from_file e fn) as [[st d] | x]; simpl.
  2: { unfold set_dirs; simpl. by rewrite remove_added, world_eta. }
  assert (Hp : forall obj' : Biorxiv,
    (let (r, w2) :=
       match db_session_merge e obj' (set_dirs ({[td]} ∪ dirs w) w) with
       | (Ok a, w') => db_session_commit e a w'
       | (Raise x, w') => (Raise x, w')
       end in (r, snd (cleanup td w2)))
    = (fst (persisted e obj' (table w)),
       set_table (snd (persisted e obj' (table w))) w)).
  { intros obj'. unfold db_session_merge, db_session_commit, persisted, cleanup.
    destruct (merge_error e), (commit_error e); simpl;
      unfold set_dirs, set_table; simpl; rewrite remove_added by done;
      by rewrite ?world_eta. }
  destruct st; simpl.
  - destruct (find_authors e (id obj)) as [a | x]; simpl.
    + apply Hp.
    + unfold set_dirs; simpl. by rewrite remove_added, world_eta.
  - apply Hp.
Qed.

(** *** The temporary directory *)

Lemma keeps_dirs_ret {A} (a : A) : keeps_dirs (ret a).
Proof. by intros w. Qed.

Lemma keeps_dirs_call {A} (r : result A) : keeps_dirs (call r).
Proof. by intros w. Qed.

Lemma keeps_dirs_bind {A B} (m : M A) (k : A -> M B) :
  keeps_dirs m -> (forall a, keeps_dirs (k a)) -> keeps_dirs (bind m k).
Proof.
  intros Hm Hk w. unfold bind. specialize (Hm w).
  destruct (m w) as [[a | x] w1]; simpl in *; [| done].
  by rewrite Hk.
Qed.

Lemma keeps_dirs_merge e obj : keeps_dirs (db_session_merge e obj).
Proof. intros w. unfold db_session_merge. by destruct (merge_error e). Qed.

Lemma keeps_dirs_commit e obj : keeps_dirs (db_session_commit e obj).
Proof. intros w. unfold db_session_commit. by destruct (commit_error e). Qed.

Create HintDb dirs.
#[local] Hint Resolve keeps_dirs_ret keeps_dirs_call keeps_dirs_merge keeps_dirs_commit : dirs.

(** The directory that [mkdtemp] hands out did not exist and now does. *)
Lemma mkdtemp_creates e w td w1 :
  mkdtemp e w = (Ok td, w1) -> (td ∉ dirs w) /\ dirs w1 = {[td]} ∪ dirs w.
Proof.
  unfold mkdtemp. change (fun n => bool_decide (n ∉ dirs w)) with (fresh w).
  destruct (List.find (fresh w) (names e)) as [n |] eqn:Hf; [| done].
  intros [= <- <-]. split; [by eapply find_fresh | done].
Qed.

(** A [with] block whose body leaves the directories alone leaves them
    as they were before the block, whether the body returns or raises. *)
Lemma with_TemporaryDirectory_releases {A} e (body : str -> M A) :
  (forall td, keeps_dirs (body td)) -> keeps_dirs (with_TemporaryDirectory e body).
Proof.
  intros Hb w. unfold with_TemporaryDirectory.
  destruct (mkdtemp e w) as [[td | x] w1] eqn:Hk.
  - apply mkdtemp_creates in Hk as [Hn Hd].
    specialize (Hb td w1). destruct (body td w1) as [r w2]. simpl in *.
    rewrite Hb, Hd. by apply remove_added.
  - unfold mkdtemp in Hk.
    destruct (List.find _ (names e)); by inversion Hk.
Qed.

(** C9. After [process_paper], however it ends (normal return, or an
    exception from the download, the analysis, the author lookup, the merge
    or the commit), the temporary directories that exist are exactly those
    that existed before the call: the one the call created is gone. *)
Theorem process_paper_releases_directory e obj w :
  dirs (snd (process_paper e obj w)) = dirs w.
Proof.
  apply with_TemporaryDirectory_releases. intros td.
  repeat (apply keeps_dirs_bind; [auto with dirs | intros ?]).
  - destruct (truthy _); [| auto with dirs].
    apply keeps_dirs_bind; auto with dirs.
  - repeat (apply keeps_dirs_bind; [auto with dirs | intros ?]).
    auto with dirs.
Qed.

(** *** Failures *)

Lemma collaborator_raises_enriched e td obj x :
  collaborator_raises e td obj x <-> enriched e td obj = Raise x.
Proof.
  unfold collaborator_raises, enriched, analysis, and_then. split.
  - intros [H | [(fn & H1 & H2) | (fn & d & H1 & H2 & H3)]].
    + by rewrite H.
    + by rewrite H1, H2.
    + rewrite H1, H2. simpl. by rewrite H3.
  - destruct (download_paper e (id obj) td) as [fn | y]; [| intros [= ->]; by left].
    destruct (detect_rainbow_from_file e fn) as [[st d] | y] eqn:Hd;
      [| intros [= ->]; right; left; by exists fn].
    simpl. destruct st; [| done].
    destruct (find_authors e (id obj)) as [a | y]; [done |].
    intros [= ->]. right; right. by exists fn, d.
Qed.

(** C8. When the download, the analysis or the author lookup raises, the
    same exception comes out of [process_paper] and the world after the
    call is the world before it: no row is written, so after a lookup
    failure neither [parse_status] nor [parse_data] of the analysis is
    stored. *)
Theorem process_paper_failure_propagates e obj w td x :
  List.find (fresh w) (names e) = Some td ->
  collaborator_raises e td obj x ->
  process_paper e obj w = (Raise x, w).
Proof.
  intros Hf Hc. apply collaborator_raises_enriched in Hc.
  by rewrite process_paper_eq, Hf, Hc.
Qed.

(** *** What a run writes *)

Lemma enriched_frame e td obj obj' :
  enriched e td obj = Ok obj' ->
  id obj' = id obj /\ title obj' = title obj /\ created obj' = created obj.
Proof.
  unfold enriched, and_then.
  destruct (analysis e (id obj) td) as [[st d] | x]; [| done]. simpl.
  destruct st.
  - destruct (find_authors e (id obj)); [| done]. by intros [= <-].
  - by intros [= <-].
Qed.

(** The processing columns of the object that is merged: the verdict and
    payload of the analyzer, and the authors exactly when the verdict is
    positive; otherwise [author_contact] is whatever the job's object had. *)
Lemma enriched_results e td obj obj' :
  enriched e td obj = Ok obj' ->
  exists st d,
    analysis e (id obj) td = Ok (st, d) /\
    parse_status obj' = Some st /\
    parse_data obj' = Some d /\
    (st = true ->
     exists a, find_authors e (id obj) = Ok a /\ author_contact obj' = Some a) /\
    (st = false -> author_contact obj' = author_contact obj).
Proof.
  unfold enriched, and_then.
  destruct (analysis e (id obj) td) as [[st d] | x]; [| done]. simpl.
  destruct st.
  - destruct (find_authors e (id obj)) as [a | x]; [| done].
    intros [= <-]. exists true, d. simpl.
    repeat split; [by exists a | done].
  - intros [= <-]. exists false, d. by repeat split.
Qed.

Lemma process_paper_ok e obj w :
  fst (process_paper e obj w) = Ok tt ->
  exists td obj',
    List.find (fresh w) (names e) = Some td /\
    enriched e td obj = Ok obj' /\
    snd (process_paper e obj w) =
      set_table (<[id obj := merge_into obj' (default (new_instance (id obj))
                                                (table w !! id obj))]> (table w)) w.
Proof.
  rewrite process_paper_eq.
  destruct (List.find (fresh w) (names e)) as [td |]; [| done].
  destruct (enriched e td obj) as [obj' | x] eqn:He; [| done].
  destruct (enriched_frame _ _ _ _ He) as (Hi & _).
  unfold persisted. rewrite Hi.
  destruct (merge_error e); [done |]. destruct (commit_error e); [done |].
  intros _. by exists td, obj'.
Qed.

(** A run that raises writes no row. *)
Lemma process_paper_raise e obj w x :
  fst (process_paper e obj w) = Raise x -> snd (process_paper e obj w) = w.
Proof.
  rewrite process_paper_eq.
  destruct (List.find (fresh w) (names e)) as [td |]; [| done].
  destruct (enriched e td obj) as [obj' | y]; [| done].
  unfold persisted.
  destruct (merge_error e); [intros _; by destruct w |].
  destruct (commit_error e); [intros _; by destruct w | done].
Qed.

Lemma column_merged {A} (f : Biorxiv -> option A) (src : Biorxiv) tbl :
  (forall dst, f (merge_into src dst) = merge_attr (f src) (f dst)) ->
  f (new_instance (id src)) = None ->
  column f (<[id src := merge_into src (default (new_instance (id src))
                                          (tbl !! id src))]> tbl) (id src)
  = merge_attr (f src) (column f tbl (id src)).
Proof.
  intros Hf Hn. unfold column. rewrite lookup_insert_eq, Hf.
  destruct (tbl !! id src); simpl; [done |]. by rewrite Hn.
Qed.

(** C2 (as the code has it). A successful run of [process_paper] merges the
    whole object of the job.  The stored [title] and [created] become those
    the job's object carries (its snapshot from the time it was enqueued)
    and stay as stored only where the object has none; [parse_status] and
    [parse_data] become the results of the analysis; [author_contact]
    becomes the authors found when the verdict is positive and otherwise
    that of the job's object or, when it has none, stays as stored; rows of
    other ids are not touched. *)
Theorem process_paper_writes_job_snapshot e obj w :
  fst (process_paper e obj w) = Ok tt ->
  let w' := snd (process_paper e obj w) in
  column title (table w') (id obj)
    = merge_attr (title obj) (column title (table w) (id obj)) /\
  column created (table w') (id obj)
    = merge_attr (created obj) (column created (table w) (id obj)) /\
  (exists td st d,
     analysis e (id obj) td = Ok (st, d) /\
     column parse_status (table w') (id obj) = Some st /\
     column parse_data (table w') (id obj) = Some d /\
     (st = true -> exists a, find_authors e (id obj) = Ok a /\
                    column author_contact (table w') (id obj) = Some a) /\
     (st = false -> column author_contact (table w') (id obj)
                    = merge_attr (author_contact obj)
                        (column author_contact (table w) (id obj)))) /\
  forall j, j <> id obj -> table w' !! j = table w !! j.
Proof.
  intros Hok w'. subst w'.
  destruct (process_paper_ok e obj w Hok) as (td & obj' & _ & He & ->).
  destruct (enriched_frame _ _ _ _ He) as (Hi & Ht & Hc).
  destruct (enriched_results _ _ _ _ He) as (st & d & Ha & Hs & Hd & Hyes & Hno).
  cbn [table set_table]. rewrite <- Hi.
  rewrite !column_merged by done. rewrite Ht, Hc, Hs, Hd.
  split; [done |]. split; [done |]. split.
  - exists td, st, d. rewrite Hi. repeat split; try done.
    + intros Hst. destruct (Hyes Hst) as (a & Hf & Hac).
      exists a. by rewrite Hac.
    + intros Hst. by rewrite (Hno Hst).
  - intros j Hj. by rewrite lookup_insert_ne.
Qed.

(** *** Running a job again *)

Lemma enriched_ext e1 e2 td1 td2 obj :
  analysis e1 (id obj) td1 = analysis e2 (id obj) td2 ->
  find_authors e1 (id obj) = find_authors e2 (id obj) ->
  enriched e1 td1 obj = enriched e2 td2 obj.
Proof. intros Ha Hf. unfold enriched. by rewrite Ha, Hf. Qed.

(** Running on the object that an earlier run already filled in computes
    the same object again. *)
Lemma enriched_again e td obj obj' :
  enriched e td obj = Ok obj' -> enriched e td obj' = Ok obj'.
Proof.
  intros H. destruct (enriched_frame _ _ _ _ H) as (Hi & _).
  revert H. unfold enriched, and_then. rewrite Hi.
  destruct (analysis e (id obj) td) as [[st d] | x]; [| done]. simpl.
  destruct st.
  - destruct (find_authors e (id obj)) as [a | x]; [| done].
    by intros [= <-].
  - by intros [= <-].
Qed.

Lemma fresh_set_table t w : fresh (set_table t w) = fresh w.
Proof. reflexivity. Qed.

(** Merging an object into a table that already holds the result of
    merging it changes nothing. *)
Lemma persisted_again e1 e2 obj tbl :
  merge_error e1 = None -> commit_error e1 = None ->
  snd (persisted e2 obj (snd (persisted e1 obj tbl))) = snd (persisted e1 obj tbl).
Proof.
  intros Hm Hk. unfold persisted at 2 3. rewrite Hm, Hk. cbn [snd].
  unfold persisted. destruct (merge_error e2); [done |].
  destruct (commit_error e2); [done |]. cbn [snd].
  rewrite lookup_insert_eq. cbn [from_option]. unfold Datatypes.id.
  by rewrite merge_into_idem, insert_insert_eq.
Qed.

Lemma set_table_table w : set_table (table w) w = w.
Proof. by destruct w. Qed.

(** The same when the second run gets the very object the first run
    filled in (the synchronous queue of the test harness passes the object
    itself, not a copy). *)
Lemma process_paper_again_in_place e1 e2 obj obj' td1 w :
  (forall td1 td2, analysis e1 (id obj) td1 = analysis e2 (id obj) td2) ->
  find_authors e1 (id obj) = find_authors e2 (id obj) ->
  List.find (fresh w) (names e1) = Some td1 ->
  enriched e1 td1 obj = Ok obj' ->
  merge_error e1 = None -> commit_error e1 = None ->
  snd (process_paper e2 obj' (snd (process_paper e1 obj w)))
  = snd (process_paper e1 obj w).
Proof.
  intros Ha Hf Hd He Hm Hk.
  destruct (enriched_frame _ _ _ _ He) as (Hi & _).
  rewrite (process_paper_eq e1), Hd, He. cbn [snd].
  rewrite process_paper_eq, fresh_set_table.
  destruct (List.find (fresh w) (names e2)) as [td2 |]; [| done].
  assert (He2 : enriched e2 td2 obj' = Ok obj').
  { rewrite <- (enriched_ext e1 e2 td1 td2 obj').
    - by apply (enriched_again e1 td1 obj).
    - rewrite Hi. apply Ha.
    - by rewrite Hi. }
  rewrite He2. cbn [snd table set_table].
  by rewrite (persisted_again e1 e2 obj' (table w) Hm Hk).
Qed.

(** A run that the operating system or the database cuts short leaves
    the world as it was. *)
Lemma process_paper_unserved e obj w :
  ~ served e w -> snd (process_paper e obj w) = w.
Proof.
  intros Hn. rewrite process_paper_eq.
  destruct (List.find (fresh w) (names e)) as [td |] eqn:Hd; [| done].
  destruct (enriched e td obj) as [obj' | x]; [| done].
  unfold persisted.
  destruct (merge_error e) eqn:Hm; [by destruct w |].
  destruct (commit_error e) eqn:Hk; [by destruct w |].
  destruct Hn. unfold served. rewrite Hd. by eauto.
Qed.

Lemma served_dec e w : served e w \/ ~ served e w.
Proof.
  unfold served.
  destruct (List.find (fresh w) (names e)); [| right; by intros [[? ?] _]].
  destruct (merge_error e); [right; by intros (_ & ? & _) |].
  destruct (commit_error e); [right; by intros (_ & _ & ?) |].
  left. by eauto.
Qed.

Lemma process_paper_again e1 e2 obj w :
  (forall td1 td2, analysis e1 (id obj) td1 = analysis e2 (id obj) td2) ->
  find_authors e1 (id obj) = find_authors e2 (id obj) ->
  served e1 w ->
  snd (process_paper e2 obj (snd (process_paper e1 obj w)))
  = snd (process_paper e1 obj w).
Proof.
  intros Ha Hf ([td1 Hd] & Hm & Hk).
  rewrite (process_paper_eq e1), Hd.
  destruct (enriched e1 td1 obj) as [obj' | x] eqn:He; cbn [snd].
  - rewrite process_paper_eq, fresh_set_table.
    destruct (List.find (fresh w) (names e2)) as [td2 |]; [| done].
    rewrite <- (enriched_ext e1 e2 td1 td2 obj (Ha td1 td2) Hf), He.
    cbn [snd table set_table].
    rewrite (persisted_again e1 e2 obj' (table w) Hm Hk).
    reflexivity.
  - rewrite process_paper_eq.
    destruct (List.find (fresh w) (names e2)) as [td2 |]; [| done].
    by rewrite <- (enriched_ext e1 e2 td1 td2 obj (Ha td1 td2) Hf), He.
Qed.

(** C4. When the download, the analysis and the author lookup return in a
    second run of a job what they returned in the first, the world after
    the two runs, and so the stored record, is the world after one run:
    after the first run alone whenever that run was served by the
    operating system and the database, and otherwise after the second run
    alone. *)
Theorem process_paper_twice_same_record e1 e2 obj w :
  (forall td1 td2, analysis e1 (id obj) td1 = analysis e2 (id obj) td2) ->
  find_authors e1 (id obj) = find_authors e2 (id obj) ->
  let once := snd (process_paper e1 obj w) in
  let twice := snd (process_paper e2 obj once) in
  (served e1 w -> twice = once) /\
  (twice = once \/ twice = snd (process_paper e2 obj w)).
Proof.
  intros Ha Hf once twice. subst once twice.
  split; [by apply process_paper_again |].
  destruct (served_dec e1 w) as [Hs | Hn].
  - left. by apply process_paper_again.
  - right. by rewrite (process_paper_unserved e1 obj w Hn).
Qed.

(** *** Authors and verdicts *)

Lemma row_ok_new verdict i : row_ok verdict i (new_instance i).
Proof. by left. Qed.

Lemma row_ok_default verdict i (o : option Biorxiv) :
  (forall r, o = Some r -> row_ok verdict i r) ->
  row_ok verdict i (default (new_instance i) o).
Proof. intros H. destruct o; [by apply H | apply row_ok_new]. Qed.

Lemma pipeline_inv_intake verdict e v t w :
  pipeline_inv verdict w -> pipeline_inv verdict (snd (parse_tweet e v t w)).
Proof.
  intros [Hrow Hjob].
  destruct (parse_tweet_world e v t w) as [[Ht Hj] | (code & _ & Ht & Hj)];
    unfold pipeline_inv; rewrite Ht, Hj; [done |].
  split.
  - intros i r. destruct (decide (code = i)) as [-> | Hne].
    + rewrite lookup_insert_eq. intros [= <-].
      pose proof (row_ok_default verdict i (table w !! i) (Hrow i)) as Hd.
      destruct Hd as [[H1 H2] | [H1 H2]]; [left | right]; by simpl.
    + rewrite lookup_insert_ne by done. apply Hrow.
  - apply Forall_app. split; [done |]. by repeat constructor.
Qed.

Lemma pipeline_inv_worker verdict e obj w :
  pipeline_inv verdict w -> obj ∈ jobs w -> verdict_of verdict e ->
  pipeline_inv verdict (snd (process_paper e obj w)).
Proof.
  intros [Hrow Hjob] Hin Hv.
  destruct (fst (process_paper e obj w)) as [[] | x] eqn:Hr.
  2: { by rewrite (process_paper_raise e obj w x Hr). }
  destruct (process_paper_ok e obj w Hr) as (td & obj' & _ & He & ->).
  split; [| done]. cbn [table set_table].
  destruct (enriched_results _ _ _ _ He) as (st & d & Ha & Hs & _ & Hyes & Hno).
  apply Hv in Ha. subst st.
  rewrite Forall_forall in Hjob. destruct (Hjob obj Hin) as [_ Hnone].
  intros i r. destruct (decide (id obj = i)) as [<- | Hne].
  - rewrite lookup_insert_eq. intros [= <-]. right.
    cbn [parse_status author_contact merge_into]. rewrite Hs.
    split; [done |].
    destruct (verdict (id obj)) eqn:Hvd.
    + destruct (Hyes eq_refl) as (a & _ & ->). by split.
    + rewrite (Hno eq_refl), Hnone. cbn [merge_attr].
      pose proof (row_ok_default verdict (id obj) (table w !! id obj) (Hrow (id obj))) as Hd.
      destruct Hd as [[_ H2] | [_ H2]]; [by rewrite H2 |].
      rewrite Hvd in H2. done.
  - rewrite lookup_insert_ne by done. apply Hrow.
Qed.

Lemma reachable_inv verdict w : reachable verdict w -> pipeline_inv verdict w.
Proof.
  induction 1 as [d o | e v t w _ IH | i w _ IH | e obj w _ IH Hin Hv].
  - split; [| constructor]. intros i r. cbn [table]. by rewrite lookup_empty.
  - by apply pipeline_inv_intake.
  - destruct IH as [Hrow Hjob]. split; [done |]. cbn [jobs set_jobs].
    apply Forall_app. split; [done |]. by repeat constructor.
  - by apply pipeline_inv_worker.
Qed.

(** With an analyzer that gives a paper the same verdict in every run,
    every row of every reachable state has [author_contact] set if and only
    if its [parse_status] is the positive verdict. *)
Theorem author_contact_iff_flagged verdict w i r :
  reachable verdict w ->
  table w !! i = Some r ->
  contact_iff_flagged r.
Proof.
  intros Hr Hl. destruct (reachable_inv verdict w Hr) as [Hrow _].
  unfold contact_iff_flagged.
  destruct (Hrow i r Hl) as [[H1 H2] | [H1 H2]].
  - rewrite H1, H2. split; [by intros [? ?] | done].
  - rewrite H1, H2. split; [by intros -> | by intros [= ->]].
Qed.

(** *** Authors and papers that were flagged *)

Lemma flags_raise e obj w x :
  fst (process_paper e obj w) = Raise x -> flags e obj w = false.
Proof. intros H. unfold flags. by rewrite H. Qed.

Lemma flagged_inv_intake F e v t w :
  flagged_inv F w -> flagged_inv F (snd (parse_tweet e v t w)).
Proof.
  intros (Hrow & Hdom & Hjob).
  destruct (parse_tweet_world e v t w) as [[Ht Hj] | (code & _ & Ht & Hj)];
    unfold flagged_inv; rewrite Ht, Hj; [done |].
  split; [| split].
  - intros i r. destruct (decide (code = i)) as [<- | Hne].
    + rewrite lookup_insert_eq. intros [= <-].
      cbn [author_contact parse_status merge_into intake_obj merge_attr].
      destruct (table w !! code) as [r0 |] eqn:Hr0; cbn [from_option].
      * by apply Hrow.
      * assert (Hnot : code ∉ F).
        { intros Hin. destruct (Hdom code Hin) as [r1 Hr1]. congruence. }
        cbn [new_instance author_contact parse_status].
        split; [| done]. split; [by intros [? ?] | done].
    + rewrite lookup_insert_ne by done. apply Hrow.
  - intros i Hi. destruct (decide (code = i)) as [<- | Hne].
    + rewrite lookup_insert_eq. by eexists.
    + rewrite lookup_insert_ne by done. by apply Hdom.
  - apply Forall_app. split; [done |]. by repeat constructor.
Qed.

Lemma flagged_inv_worker F e obj w :
  flagged_inv F w -> obj ∈ jobs w ->
  flagged_inv (if flags e obj w then {[id obj]} ∪ F else F) (snd (process_paper e obj w)).
Proof.
  intros (Hrow & Hdom & Hjob) Hin.
  destruct (fst (process_paper e obj w)) as [[] | x] eqn:Hr.
  2: { rewrite (flags_raise e obj w x Hr), (process_paper_raise e obj w x Hr). done. }
  destruct (process_paper_ok e obj w Hr) as (td & obj' & _ & He & Hw).
  destruct (enriched_results _ _ _ _ He) as (st & d & _ & Hs & _ & Hyes & Hno).
  assert (Hnone : author_contact obj = None).
  { rewrite Forall_forall in Hjob. by destruct (Hjob obj Hin). }
  assert (Hfl : flags e obj w = st).
  { unfold flags. rewrite Hr, Hw. cbn [table set_table]. unfold column.
    rewrite lookup_insert_eq. cbn [parse_status merge_into]. rewrite Hs. by destruct st. }
  rewrite Hfl, Hw. unfold flagged_inv. cbn [table jobs set_table].
  split; [| split; [| done]].
  - intros i r. destruct (decide (id obj = i)) as [<- | Hne].
    + rewrite lookup_insert_eq. intros [= <-].
      cbn [author_contact parse_status merge_into]. rewrite Hs.
      destruct st.
      * destruct (Hyes eq_refl) as (a & _ & ->). cbn [merge_attr].
        split; [| split; [| done]].
        -- split; [intros _; apply elem_of_union_l; by apply elem_of_singleton | by eexists].
        -- intros _. apply elem_of_union_l. by apply elem_of_singleton.
      * rewrite (Hno eq_refl), Hnone. cbn [merge_attr].
        split; [| done].
        destruct (table w !! id obj) as [r0 |] eqn:Hr0; cbn [from_option].
        -- by apply Hrow.
        -- cbn [new_instance author_contact]. split; [by intros [? ?] |].
           intros Hi. destruct (Hdom _ Hi) as [r1 Hr1]. congruence.
    + rewrite lookup_insert_ne by done. intros Hl.
      destruct (Hrow i r Hl) as (H1 & H2 & H3).
      destruct st; [| done].
      split; [| split].
      * rewrite H1. rewrite elem_of_union, elem_of_singleton.
        split; [intros Hi; by right | intros [Heq | Hi]; [congruence | done]].
      * intros Hst. apply elem_of_union_r. by apply H2.
      * intros Hst. rewrite elem_of_union, elem_of_singleton. specialize (H3 Hst).
        intros [Heq | Hi]; [congruence | done].
  - intros i Hi. destruct (decide (id obj = i)) as [<- | Hne].
    + rewrite lookup_insert_eq. by eexists.
    + rewrite lookup_insert_ne by done. apply Hdom.
      destruct st; [| done].
      apply elem_of_union in Hi as [Hi | Hi]; [| done].
      apply elem_of_singleton in Hi. congruence.
Qed.

Lemma reachable_flagged_inv F w : reachable_flagged F w -> flagged_inv F w.
Proof.
  induction 1 as [d o | F e v t w _ IH | F i w _ IH | F F' e obj w _ IH Hin ->].
  - split; [| split; [| constructor]].
    + intros i r. cbn [table]. by rewrite lookup_empty.
    + intros i Hi. by apply not_elem_of_empty in Hi.
  - by apply flagged_inv_intake.
  - destruct IH as (Hrow & Hdom & Hjob). split; [done |]. split; [done |].
    cbn [jobs set_jobs]. apply Forall_app. split; [done |]. by repeat constructor.
  - by apply flagged_inv_worker.
Qed.

(** With a negative verdict the author lookup plays no part in the run. *)
Lemma process_paper_clean_lookup_free e f obj w td d :
  List.find (fresh w) (names e) = Some td ->
  analysis e (id obj) td = Ok (false, d) ->
  process_paper (with_find_authors f e) obj w = process_paper e obj w.
Proof.
  intros Hd Ha. rewrite !process_paper_eq. cbn [names with_find_authors]. rewrite Hd.
  assert (He : enriched (with_find_authors f e) td obj = enriched e td obj).
  { unfold enriched.
    change (analysis (with_find_authors f e) (id obj) td) with (analysis e (id obj) td).
    by rewrite Ha. }
  rewrite He. by destruct (enriched e td obj).
Qed.

(** C3 (as the code has it). In every state the pipeline can reach,
    whatever verdicts the analyzer gives from run to run, a row has
    [author_contact] set if and only if some run has flagged its paper: it
    is set whenever [parse_status] is the positive verdict, and it is not
    set on an unprocessed row nor on a clean row of a paper that no run has
    flagged.  A run of a queued job that returns normally stores the
    verdict of the analyzer; with a positive verdict it stores the authors
    that the lookup found, with a negative verdict it leaves
    [author_contact] as it was stored and the lookup plays no part in it. *)
Theorem author_contact_iff_ever_flagged F w :
  reachable_flagged F w ->
  (forall i r, table w !! i = Some r ->
     (is_Some (author_contact r) <-> i ∈ F) /\
     (parse_status r = Some true -> is_Some (author_contact r)) /\
     (parse_status r = None -> author_contact r = None)) /\
  (forall e obj, obj ∈ jobs w -> fst (process_paper e obj w) = Ok tt ->
     let w' := snd (process_paper e obj w) in
     exists td st d,
       analysis e (id obj) td = Ok (st, d) /\
       column parse_status (table w') (id obj) = Some st /\
       (st = true ->
          exists a, find_authors e (id obj) = Ok a /\
                    column author_contact (table w') (id obj) = Some a) /\
       (st = false ->
          column author_contact (table w') (id obj)
            = column author_contact (table w) (id obj) /\
          forall f, process_paper (with_find_authors f e) obj w = process_paper e obj w)).
Proof.
  intros Hreach. destruct (reachable_flagged_inv F w Hreach) as (Hrow & _ & Hjob).
  split.
  - intros i r Hl. destruct (Hrow i r Hl) as (H1 & H2 & H3).
    split; [done |]. split.
    + intros Hst. apply H1. by apply H2.
    + intros Hst. specialize (H3 Hst).
      destruct (author_contact r) eqn:Hc; [| done].
      destruct H3. apply H1. by eexists.
  - intros e obj Hin Hok w'. subst w'.
    assert (Hnone : author_contact obj = None).
    { rewrite Forall_forall in Hjob. by destruct (Hjob obj Hin). }
    destruct (process_paper_ok e obj w Hok) as (td & obj' & Hd & He & Hw).
    destruct (enriched_frame _ _ _ _ He) as (Hi & _).
    destruct (enriched_results _ _ _ _ He) as (st & d & Ha & Hs & _ & Hyes & Hno).
    exists td, st, d. split; [done |].
    rewrite Hw. cbn [table set_table]. rewrite <- Hi.
    rewrite !column_merged by done. rewrite Hs, Hi.
    split; [done |]. split.
    + intros Hst. destruct (Hyes Hst) as (a & Hf & Hac). exists a. by rewrite Hac.
    + intros Hst. rewrite (Hno Hst), Hnone. split; [done |].
      intros f. subst st. by apply (process_paper_clean_lookup_free e f obj w td d).
Qed.

(** ** The title *)

Section Title.

Lemma after_last_acc sep (l acc : str) :
  sep ∉ l ->
  fold_left (fun seg c => if c =? sep then [] else seg ++ [c]) l acc = acc ++ l.
Proof.
  revert acc. induction l as [| c l IH]; intros acc Hn; simpl.
  - by rewrite app_nil_r.
  - apply not_elem_of_cons in Hn as [Hc Hl].
    destruct (N.eqb_spec c sep) as [-> | _]; [done |].
    by rewrite IH, <- app_assoc.
Qed.

Lemma after_last_none sep (l : str) : sep ∉ l -> after_last sep l = l.
Proof. intros H. unfold after_last. by rewrite after_last_acc. Qed.

Lemma after_last_app sep (pre l : str) :
  sep ∉ l -> after_last sep (pre ++ sep :: l) = l.
Proof.
  intros H. unfold after_last. rewrite fold_left_app. simpl.
  rewrite N.eqb_refl. by rewrite after_last_acc.
Qed.

Lemma match_here_unfold (s : str) :
  match_here s =
    if token_here s then Some ([], drop 5 s)
    else match s with
         | [] => None
         | c :: s' =>
             if c =? newline then None
             else match match_here s' with
                  | Some (g, rest) => Some (c :: g, rest)
                  | None => None
                  end
         end.
Proof. by destruct s. Qed.

Lemma match_here_Some s g rest :
  match_here s = Some (g, rest) ->
  take (List.length g) s = g /\
  token_at s (List.length g) /\
  (newline ∉ g) /\
  forall j, (j < List.length g)%nat -> ~ token_at s j.
Proof.
  revert g rest. induction s as [| c s IH]; intros g rest; rewrite match_here_unfold.
  - done.
  - destruct (token_here (c :: s)) eqn:Htok.
    + intros [= <- <-]. unfold token_at. cbn [List.length take drop].
      repeat split; [done | apply not_elem_of_nil | intros j Hj; lia].
    + destruct (N.eqb_spec c newline) as [Heq | Hc]; [done |].
      destruct (match_here s) as [[g' rest'] |] eqn:Hm; [| done].
      intros [= <- <-].
      destruct (IH g' rest' eq_refl) as (Ht & Hk & Hn & Hf).
      cbn [List.length]. repeat split.
      * cbn [take]. by rewrite Ht.
      * done.
      * apply not_elem_of_cons. split; [by intros Heq | done].
      * intros [| j] Hj; unfold token_at.
        -- by rewrite drop_0, Htok.
        -- rewrite skipn_cons. apply Hf. lia.
Qed.

Lemma match_here_None s : match_here s = None -> ~ token_at s 0.
Proof.
  rewrite match_here_unfold. unfold token_at. rewrite drop_0.
  destruct (token_here s); [done |]. intros _ H. discriminate H.
Qed.

(** Only a line feed stops a start position from matching when the next
    one matches. *)
Lemma match_here_skipped c s m :
  match_here (c :: s) = None -> match_here s = Some m -> c = newline.
Proof.
  rewrite match_here_unfold. intros H Hm. rewrite Hm in H.
  destruct (token_here (c :: s)); [done |].
  destruct (N.eqb_spec c newline); [done |]. by destruct m.
Qed.

Lemma search_Some s g rest :
  search s = Some (g, rest) ->
  exists pre,
    take (List.length pre + List.length g) s = pre ++ g /\
    first_token s (List.length pre + List.length g) /\
    (newline ∉ g) /\
    ((pre = [] /\ match_here s = Some (g, rest)) \/
     exists pre', pre = pre' ++ [newline]).
Proof.
  induction s as [| c s IH].
  - simpl. done.
  - cbn [search]. destruct (match_here (c :: s)) as [m |] eqn:Hm.
    + intros [= ->]. exists [].
      destruct (match_here_Some _ _ _ Hm) as (Ht & Hk & Hn & Hf).
      cbn [List.length Nat.add app]. repeat split; auto.
    + intros Hs. destruct (IH Hs) as (pre & Ht & [Hk Hf] & Hn & Hp).
      exists (c :: pre). cbn [List.length Nat.add]. repeat split.
      * cbn [take app]. by rewrite Ht.
      * done.
      * intros [| j] Hj.
        -- by apply match_here_None.
        -- unfold token_at. rewrite skipn_cons. apply Hf. lia.
      * done.
      * right. destruct Hp as [[-> Hm'] | [pre' ->]].
        -- exists []. by rewrite (match_here_skipped c s _ Hm Hm').
        -- by exists (c :: pre').
Qed.

Lemma search_None s : search s = None -> no_token s.
Proof.
  induction s as [| c s IH]; cbn [search].
  - intros _ k. unfold token_at. by rewrite drop_nil.
  - destruct (match_here (c :: s)) eqn:Hm; [done |].
    intros Hs [| k].
    + by apply match_here_None.
    + unfold token_at. rewrite skipn_cons. by apply IH.
Qed.

Lemma tweet_title_search text :
  tweet_title text =
    match search text with
    | Some (g, _) => g
    | None => re_sub_non_ascii text
    end.
Proof.
  unfold tweet_title, re_findall. cbn [findall_from].
  by destruct (search text) as [[g rest] |].
Qed.

(** What lines 109-113 compute. *)
Lemma tweet_title_spec text :
  (exists k, first_token text k /\
             tweet_title text = after_last newline (take k text)) \/
  (no_token text /\
   tweet_title text = re_sub_non_ascii text /\
   Forall (fun c => c <= 127) (tweet_title text)).
Proof.
  rewrite tweet_title_search.
  destruct (search text) as [[g rest] |] eqn:Hs.
  - left. destruct (search_Some _ _ _ Hs) as (pre & Ht & Hk & Hn & Hp).
    exists (List.length pre + List.length g)%nat. split; [done |].
    rewrite Ht. destruct Hp as [[-> _] | [pre' ->]].
    + by rewrite after_last_none.
    + rewrite <- app_assoc. symmetry. by apply (after_last_app newline pre' g).
  - right. split; [by apply search_None |]. split; [done |].
    unfold re_sub_non_ascii. apply Forall_forall. intros c Hc.
    by apply list_elem_of_filter in Hc as [Hc _].
Qed.

(** X4. On a text with no line feed in front of the link, the title is all
    that precedes the link. *)
Lemma tweet_title_single_line text k :
  first_token text k -> newline ∉ take k text -> tweet_title text = take k text.
Proof.
  intros [Hk Hf] Hn.
  destruct (tweet_title_spec text) as [(k' & [Hk' Hf'] & ->) | [Hno _]].
  - assert (k' = k) as ->.
    { destruct (Nat.lt_trichotomy k' k) as [H | [H | H]]; [| done |].
      - by destruct (Hf k' H).
      - by destruct (Hf' k H). }
    by apply after_last_none.
  - by destruct (Hno k).
Qed.

End Title.

(** C7 (as the code has it). When [parse_tweet] stores an event, the stored
    title is the text between the last line feed in front of the first
    link marker (the start of the text when there is none) and that
    marker; when the text has no link marker, it is the text without its
    code points above 127. *)
Theorem parse_tweet_stored_title e v t w code :
  url_code t = Ok code ->
  merge_error e = None ->
  commit_error e = None ->
  exists ttl,
    column title (table (snd (parse_tweet e v t w))) code = Some ttl /\
    ((exists k, first_token (full_text t) k /\
                ttl = after_last newline (take k (full_text t))) \/
     (no_token (full_text t) /\
      ttl = filter (fun c => c <= 127) (full_text t) /\
      Forall (fun c => c <= 127) ttl)).
Proof.
  intros Hc Hm Hk. exists (tweet_title (full_text t)). split.
  - rewrite (parse_tweet_stores e v t w code Hc Hm Hk). cbn [snd table].
    unfold column. by rewrite lookup_insert_eq.
  - apply tweet_title_spec.
Qed.

(** ** Runs on which the written specification does not hold *)

(** C2, refuted as stated: the paper is announced, announced again under a
    new title, and then the job of the first announcement runs; the stored
    title and creation time go back to those of the first announcement. *)
Lemma process_paper_restores_old_title :
  jobs Scenario.once = [Scenario.first_job] /\
  column title (table Scenario.twice) Scenario.code = Some (lit "New title") /\
  column created (table Scenario.twice) Scenario.code = Some 1506086400%Z /\
  let r := process_paper (Scenario.lab true) Scenario.first_job Scenario.twice in
  fst r = Ok tt /\
  column title (table (snd r)) Scenario.code = Some (lit "Old title") /\
  column created (table (snd r)) Scenario.code = Some 1506000000%Z.
Proof. vm_compute. repeat split. Qed.

(** C3, refuted as stated: a run that flags the paper stores the authors;
    a later run whose analysis is negative stores the negative verdict and
    leaves the authors in the row. *)
Lemma clean_rerun_keeps_author_contact :
  let flagged := snd (process_paper (Scenario.lab true) Scenario.first_job Scenario.once) in
  let r := process_paper (Scenario.lab false) Scenario.first_job flagged in
  column parse_status (table flagged) Scenario.code = Some true /\
  fst r = Ok tt /\
  column parse_status (table (snd r)) Scenario.code = Some false /\
  column author_contact (table (snd r)) Scenario.code = Some Scenario.authors /\
  ~ (forall row, table (snd r) !! Scenario.code = Some row -> contact_iff_flagged row).
Proof.
  cbv zeta. split; [by vm_compute |]. split; [by vm_compute |].
  split; [by vm_compute |]. split; [by vm_compute |].
  intros H.
  destruct (table (snd (process_paper (Scenario.lab false) Scenario.first_job
              (snd (process_paper (Scenario.lab true) Scenario.first_job Scenario.once))))
            !! Scenario.code) as [row |] eqn:Hrow; [| by vm_compute in Hrow].
  specialize (H row eq_refl). vm_compute in Hrow. injection Hrow as <-.
  destruct H as [H _]. by specialize (H (mk_is_Some _ _ eq_refl)).
Qed.

(** C7, refuted as stated: on a text of two lines the stored title is the
    second line up to the link, not everything in front of the link. *)
Lemma stored_title_is_last_line_only :
  let text := full_text Scenario.two_lines in
  first_token text 3 /\
  take 3 text = lit "a" ++ [newline] ++ lit "b" /\
  column title (table (snd (parse_tweet (Scenario.lab true) true Scenario.two_lines Scenario.start)))
    Scenario.code = Some (lit "b").
Proof.
  cbv zeta. split; [| by vm_compute].
  split; [by vm_compute |].
  intros j Hj. unfold token_at.
  destruct j as [| [| [| j]]]; [by vm_compute .. | lia].
Qed.

(** * The theorems at work on the scenarios *)

(** The announcement of the paper, taken in by an empty pipeline. *)
Lemma parse_tweet_known_paper_witness :
  first_embedded_url Scenario.known (lit "http://biorxiv.org/content/172627v1") /\
  exists w' row,
    parse_tweet (Scenario.lab true) true Scenario.known Scenario.start = (Ok tt, w') /\
    table w' !! Scenario.code = Some row /\
    id row = Scenario.code /\
    title row = Some (lit "Some Title") /\
    jobs w' = [Paper Scenario.code (Some 1506000000%Z) (Some (lit "Some Title"))
                 None None None].
Proof.
  assert (Hu : first_embedded_url Scenario.known
                 (lit "http://biorxiv.org/content/172627v1")).
  { eexists _, _, _. repeat split; reflexivity. }
  split; [exact Hu |].
  destruct (parse_tweet_known_paper (Scenario.lab true) true Scenario.known
              Scenario.start Hu eq_refl eq_refl eq_refl)
    as (w' & row & H1 & H2 & H3 & H4 & _ & _ & H7).
  exists w', row. repeat split; assumption.
Defined.

(** An event with an empty list of links. *)
Lemma parse_tweet_without_url_witness :
  no_embedded_url Scenario.no_link /\
  let r := parse_tweet (Scenario.lab true) true Scenario.no_link Scenario.once in
  fst r = Ok tt /\
  table (snd r) = table Scenario.once /\
  jobs (snd r) = jobs Scenario.once /\
  stdout (snd r) = stdout Scenario.once ++ [error_line Scenario.no_link].
Proof.
  assert (Hn : no_embedded_url Scenario.no_link).
  { eexists. split; reflexivity. }
  split; [exact Hn |].
  exact (parse_tweet_without_url (Scenario.lab true) true Scenario.no_link Scenario.once Hn).
Defined.

(** An event without [entities]. *)
Lemma parse_tweet_total_on_malformed_urls_witness :
  url_code Scenario.no_entities = Raise AttributeError /\
  let r := parse_tweet (Scenario.lab true) true Scenario.no_entities Scenario.once in
  fst r = Ok tt /\
  table (snd r) = table Scenario.once /\
  jobs (snd r) = jobs Scenario.once /\
  stdout (snd r) = stdout Scenario.once ++ [error_line Scenario.no_entities].
Proof.
  split; [reflexivity |].
  exact (parse_tweet_total_on_malformed_urls (Scenario.lab true) true
           Scenario.no_entities Scenario.once AttributeError eq_refl).
Defined.

(** The analysis flags the paper and the author page cannot be read. *)
Lemma process_paper_failure_propagates_witness :
  collaborator_raises Scenario.lab_no_authors (lit "/tmp/tmpk3v9") Scenario.first_job
    (External (lit "no author block")) /\
  process_paper Scenario.lab_no_authors Scenario.first_job Scenario.once
  = (Raise (External (lit "no author block")), Scenario.once).
Proof.
  assert (Hc : collaborator_raises Scenario.lab_no_authors (lit "/tmp/tmpk3v9")
                 Scenario.first_job (External (lit "no author block"))).
  { right; right. eexists _, _. repeat split; reflexivity. }
  split; [exact Hc |].
  apply (process_paper_failure_propagates Scenario.lab_no_authors Scenario.first_job
           Scenario.once (lit "/tmp/tmpk3v9")); [vm_compute; reflexivity | exact Hc].
Defined.

(** The job of the first announcement, run after the second. *)
Lemma process_paper_writes_job_snapshot_witness :
  fst (process_paper (Scenario.lab true) Scenario.first_job Scenario.twice) = Ok tt /\
  column title
    (table (snd (process_paper (Scenario.lab true) Scenario.first_job Scenario.twice)))
    (id Scenario.first_job)
  = merge_attr (title Scenario.first_job)
      (column title (table Scenario.twice) (id Scenario.first_job)).
Proof.
  assert (Hok : fst (process_paper (Scenario.lab true) Scenario.first_job Scenario.twice)
                = Ok tt) by (vm_compute; reflexivity).
  split; [exact Hok |].
  exact (proj1 (process_paper_writes_job_snapshot (Scenario.lab true)
                  Scenario.first_job Scenario.twice Hok)).
Defined.

(** A redelivery that works in another temporary directory. *)
Lemma process_paper_twice_same_record_witness :
  served (Scenario.lab true) Scenario.once /\
  snd (process_paper Scenario.lab_redelivery Scenario.first_job
         (snd (process_paper (Scenario.lab true) Scenario.first_job Scenario.once)))
  = snd (process_paper (Scenario.lab true) Scenario.first_job Scenario.once).
Proof.
  assert (Hs : served (Scenario.lab true) Scenario.once).
  { split; [| split; reflexivity]. eexists. vm_compute. reflexivity. }
  split; [exact Hs |].
  apply (process_paper_twice_same_record (Scenario.lab true) Scenario.lab_redelivery
           Scenario.first_job Scenario.once); [| reflexivity | exact Hs].
  intros td1 td2. reflexivity.
Defined.

(** The row after intake and one flagged run. *)
Lemma author_contact_iff_flagged_witness :
  contact_iff_flagged
    (Paper Scenario.code (Some 1506000000%Z) (Some (lit "Old title"))
       (Some true) (Some (VList [VInt 2])) (Some Scenario.authors)).
Proof.
  apply (author_contact_iff_flagged (fun _ => true)
           (snd (process_paper (Scenario.lab true) Scenario.first_job Scenario.once))
           Scenario.code).
  - apply reach_worker.
    + apply reach_intake. apply reach_start.
    + vm_compute. apply list_elem_of_here.
    + intros i td st d. unfold analysis. simpl. intros H. injection H as <- _. reflexivity.
  - vm_compute. reflexivity.
Defined.

(** The announcement whose text has two lines. *)
Lemma parse_tweet_stored_title_witness :
  exists ttl,
    column title
      (table (snd (parse_tweet (Scenario.lab true) true Scenario.two_lines Scenario.start)))
      Scenario.code = Some ttl /\
    ((exists k, first_token (full_text Scenario.two_lines) k /\
                ttl = after_last newline (take k (full_text Scenario.two_lines))) \/
     (no_token (full_text Scenario.two_lines) /\
      ttl = filter (fun c => c <= 127) (full_text Scenario.two_lines) /\
      Forall (fun c => c <= 127) ttl)).
Proof.
  exact (parse_tweet_stored_title (Scenario.lab true) true Scenario.two_lines
           Scenario.start Scenario.code eq_refl eq_refl eq_refl).
Defined.


(** * More of [webapp.py] *)

(** ** The paper id of lines 103-104 *)

Lemma after_last_acc_no_sep sep (l acc : str) :
  sep ∉ acc ->
  sep ∉ fold_left (fun seg c => if c =? sep then [] else seg ++ [c]) l acc.
Proof.
  revert acc. induction l as [| c l IH]; intros acc Hn; simpl; [done |].
  apply IH. destruct (N.eqb_spec c sep) as [Heq | Hne].
  - apply not_elem_of_nil.
  - rewrite elem_of_app, list_elem_of_singleton. intros [H | H]; [done | by subst].
Qed.

Lemma after_last_acc_length (sep : N) (l acc : str) :
  (List.length (fold_left (fun seg c => if (c =? sep)%N then [] else seg ++ [c]) l acc)
   <= List.length acc + List.length l)%nat.
Proof.
  revert acc. induction l as [| c l IH]; intros acc; simpl; [lia |].
  etransitivity; [apply IH |].
  destruct (c =? sep); [simpl; lia |]. rewrite length_app. simpl. lia.
Qed.

Lemma url_code_Ok_inv t code :
  url_code t = Ok code ->
  exists url, first_embedded_url t url /\ code = basename url.
Proof.
  unfold url_code.
  destruct (entities t) as [ents |] eqn:He; [| done].
  destruct ents as [| | | | | d]; try done.
  cbn [and_then getitem_str].
  destruct (dict_get (lit "urls") d) as [urls |] eqn:Hu; [| done].
  cbn [and_then].
  destruct urls as [| | | s | l | d']; try done.
  - by destruct s.
  - destruct l as [| u rest]; [done |].
    cbn [and_then getitem_0].
    destruct u as [| | | | | du]; try done.
    cbn [getitem_str].
    destruct (dict_get (lit "expanded_url") du) as [url |] eqn:Hx; [| done].
    cbn [and_then].
    destruct url as [| | | p | |]; try done.
    cbn [os_path_basename]. intros [= <-].
    exists p. split; [| done]. by exists d, du, rest.
Qed.

(** X1. Lines 103-104 give a paper id on exactly the events whose [entities]
    is a dictionary with a list under [urls] whose first element is a
    dictionary with a string under [expanded_url]; the id is the
    [basename] of that string, whatever else the event carries. *)
Theorem url_code_ok_iff t code :
  url_code t = Ok code <->
  exists url, first_embedded_url t url /\ code = basename url.
Proof.
  split; [apply url_code_Ok_inv |].
  intros (url & Hu & ->). by apply url_code_first_embedded_url.
Qed.

(** X2. A paper id never contains a slash. *)
Theorem url_code_has_no_slash t code :
  url_code t = Ok code -> 47 ∉ code.
Proof.
  intros H. apply url_code_Ok_inv in H as (url & _ & ->).
  unfold basename, after_last. apply after_last_acc_no_sep, not_elem_of_nil.
Qed.

(** X3. The paper id is the last path segment of the first embedded URL: what
    follows its last slash, and so the empty id when the URL ends in a
    slash. *)
Theorem url_code_last_segment t dir name :
  first_embedded_url t (dir ++ 47 :: name) ->
  47 ∉ name ->
  url_code t = Ok name.
Proof.
  intros Hu Hn. rewrite (url_code_first_embedded_url t _ Hu).
  unfold basename. by rewrite after_last_app.
Qed.

(** ** The title of lines 109-113 *)

(** X5. When the text has a link marker, the title is a single line and ends
    no later than any marker. *)
Theorem tweet_title_one_line text k :
  token_at text k ->
  (newline ∉ tweet_title text) /\ (List.length (tweet_title text) <= k)%nat.
Proof.
  intros Hk.
  destruct (tweet_title_spec text) as [(k0 & [Hk0 Hf] & ->) | [Hno _]].
  - split.
    + unfold after_last. apply after_last_acc_no_sep, not_elem_of_nil.
    + assert (k0 <= k)%nat.
      { destruct (Nat.le_gt_cases k0 k) as [H | H]; [done |]. by destruct (Hf k H). }
      etransitivity; [apply after_last_acc_length |].
      rewrite length_take. simpl. lia.
  - by destruct (Hno k).
Qed.

(** X6. A text of ASCII characters without a link marker is its own title. *)
Theorem tweet_title_plain_text text :
  no_token text ->
  Forall (fun c => c <= 127) text ->
  tweet_title text = text.
Proof.
  intros Hno Hascii.
  destruct (tweet_title_spec text) as [(k & [Hk _] & _) | (_ & -> & _)].
  - by destruct (Hno k).
  - unfold re_sub_non_ascii. induction Hascii as [| c l Hc _ IH]; [done |].
    rewrite filter_cons. destruct (decide (c <= 127)); [| done].
    f_equal. apply IH. intros j Hj. apply (Hno (S j)).
    unfold token_at in *. by rewrite skipn_cons.
Qed.

(** ** [parse_tweet] *)

(** X7. [verbose] decides what is printed and nothing else. *)
Theorem parse_tweet_verbose_only_prints e t w :
  fst (parse_tweet e true t w) = fst (parse_tweet e false t w) /\
  table (snd (parse_tweet e true t w)) = table (snd (parse_tweet e false t w)) /\
  jobs (snd (parse_tweet e true t w)) = jobs (snd (parse_tweet e false t w)) /\
  dirs (snd (parse_tweet e true t w)) = dirs (snd (parse_tweet e false t w)).
Proof.
  unfold parse_tweet. destruct (url_code t) as [code | x]; [| done].
  unfold bind, print, ret, db_session_merge, db_session_commit, process_paper_queue.
  simpl. destruct (merge_error e); [done |]. by destruct (commit_error e).
Qed.

Lemma parse_tweet_db_fails e v t w code x :
  url_code t = Ok code ->
  merge_error e = Some x \/ (merge_error e = None /\ commit_error e = Some x) ->
  exists out, parse_tweet e v t w = (Raise x, set_stdout out w).
Proof.
  intros Hc Hdb. unfold parse_tweet. rewrite Hc.
  unfold bind, print, ret, db_session_merge, db_session_commit.
  destruct Hdb as [Hm | [Hm Hk]]; destruct v; simpl; rewrite Hm, ?Hk;
    eexists; try reflexivity; by rewrite <- (world_eta w) at 1.
Qed.

(** X8. Unlike a malformed link, a database error is not swallowed: when the
    merge or the commit raises, [parse_tweet] raises the same exception,
    no row is written and no job is enqueued. *)
Theorem parse_tweet_database_failure e v t w code x :
  url_code t = Ok code ->
  merge_error e = Some x \/ (merge_error e = None /\ commit_error e = Some x) ->
  fst (parse_tweet e v t w) = Raise x /\
  table (snd (parse_tweet e v t w)) = table w /\
  jobs (snd (parse_tweet e v t w)) = jobs w.
Proof.
  intros Hc Hdb.
  destruct (parse_tweet_db_fails e v t w code x Hc Hdb) as [out ->]. done.
Qed.

(** X9. A job is enqueued only after its row is stored: whenever
    [parse_tweet] changes the queue, it appended one object, and the table
    holds a row under the id of that object with its title and creation
    time. *)
Theorem parse_tweet_enqueues_only_stored e v t w :
  jobs (snd (parse_tweet e v t w)) = jobs w \/
  exists obj row,
    jobs (snd (parse_tweet e v t w)) = jobs w ++ [obj] /\
    table (snd (parse_tweet e v t w)) !! id obj = Some row /\
    title row = title obj /\ created row = created obj /\
    is_Some (title obj) /\ is_Some (created obj).
Proof.
  destruct (parse_tweet_world e v t w) as [[_ Hj] | (code & _ & Ht & Hj)]; [by left |].
  right. eexists _, _. split; [exact Hj |]. rewrite Ht.
  split; [apply lookup_insert_eq |]. by repeat split.
Qed.

(** ** [retrieve_timeline] *)

Lemma parse_tweet_db_works e v t w :
  db_works e ->
  parse_tweet e v t w =
    (Ok tt, World (intake_table (table w) t) (jobs w ++ job_of t) (dirs w)
                  (stdout w ++ printed v t)).
Proof.
  intros [Hm Hk]. unfold intake_table, job_of, printed.
  destruct (url_code t) as [code | x] eqn:Hc.
  - by rewrite (parse_tweet_stores e v t w code Hc Hm Hk).
  - rewrite (parse_tweet_discards e v t w x Hc). unfold set_stdout.
    by rewrite app_nil_r.
Qed.

Lemma parse_tweet_column_kept {A} (f : Biorxiv -> option A) e v t w i :
  (forall k, f (new_instance k) = None) ->
  (forall code t' dst, f (merge_into (intake_obj code t') dst) = f dst) ->
  column f (table (snd (parse_tweet e v t w))) i = column f (table w) i.
Proof.
  intros Hn Hf.
  destruct (parse_tweet_world e v t w) as [[-> _] | (code & _ & -> & _)]; [done |].
  by apply column_intake.
Qed.

(** What every round of a loop preserves holds when the loop ends,
    normally or not. *)
Lemma for_each_preserves {A} (P : world -> Prop) (items : list A) (body : A -> M unit) :
  (forall x w, P w -> P (snd (body x w))) ->
  forall w, P w -> P (snd (for_each items body w)).
Proof.
  intros Hb. induction items as [| x items IH]; intros w Hw; [done |].
  cbn [for_each]. unfold bind. specialize (Hb x w Hw).
  destruct (body x w) as [[[] | y] w1]; [by apply IH | done].
Qed.

Lemma retrieve_timeline_db_works timeline w :
  Forall (fun et => db_works (fst et)) timeline ->
  retrieve_timeline (Ok timeline) w =
    (Ok tt, World (foldl intake_table (table w) (map snd timeline))
                  (jobs w ++ flat_map job_of (map snd timeline))
                  (dirs w)
                  (stdout w ++ flat_map (printed true) (map snd timeline))).
Proof.
  unfold retrieve_timeline, bind, call.
  intros H. revert w. induction H as [| [e t] timeline He _ IH]; intros w.
  - simpl. by rewrite !app_nil_r, world_eta.
  - cbn [for_each map flat_map foldl fst snd]. unfold bind.
    rewrite (parse_tweet_db_works e true t w He), IH. cbn [table jobs dirs stdout].
    by rewrite <- !app_assoc.
Qed.

(** X10. A backfill never changes processing results: after
    [retrieve_timeline], whatever the timeline and whatever fails on the
    way, every row has the [parse_status], [parse_data] and
    [author_contact] it had. *)
Theorem retrieve_timeline_keeps_processing_results user_timeline w i :
  let w' := snd (retrieve_timeline user_timeline w) in
  column parse_status (table w') i = column parse_status (table w) i /\
  column parse_data (table w') i = column parse_data (table w) i /\
  column author_contact (table w') i = column author_contact (table w) i.
Proof.
  intros w'. subst w'. unfold retrieve_timeline, bind, call.
  destruct user_timeline as [timeline | x]; [| done].
  apply (for_each_preserves
           (fun w' => column parse_status (table w') i = column parse_status (table w) i /\
                      column parse_data (table w') i = column parse_data (table w) i /\
                      column author_contact (table w') i = column author_contact (table w) i));
    [| done].
  intros [e t] w1 (H1 & H2 & H3). cbn [fst snd].
  rewrite <- H1, <- H2, <- H3.
  split; [by apply parse_tweet_column_kept |].
  split; by apply parse_tweet_column_kept.
Qed.

(** X11. With the database at work, [retrieve_timeline] returns normally, the
    queue grows by one job for every status that has a link, in the order
    of the timeline, and every status leaves exactly one line on the
    output. *)
Theorem retrieve_timeline_jobs_in_order timeline w :
  Forall (fun et => db_works (fst et)) timeline ->
  let r := retrieve_timeline (Ok timeline) w in
  fst r = Ok tt /\
  jobs (snd r) = jobs w ++ flat_map job_of (map snd timeline) /\
  List.length (stdout (snd r)) = (List.length (stdout w) + List.length timeline)%nat.
Proof.
  intros H r. subst r. rewrite (retrieve_timeline_db_works timeline w H).
  cbn [fst snd jobs stdout]. split; [done |]. split; [done |].
  rewrite length_app. f_equal.
  clear H. induction timeline as [| [e t] timeline IH]; [done |].
  cbn [map flat_map snd]. rewrite length_app, IH. cbn [List.length].
  unfold printed, progress_line. by destruct (url_code t).
Qed.

Lemma for_each_app {A} (items rest : list A) (body : A -> M unit) w :
  for_each (items ++ rest) body w =
    match for_each items body w with
    | (Ok _, w1) => for_each rest body w1
    | (Raise x, w1) => (Raise x, w1)
    end.
Proof.
  revert w. induction items as [| x items IH]; intros w; [done |].
  cbn [for_each app]. unfold bind.
  destruct (body x w) as [[[] | y] w1]; [apply IH | done].
Qed.

(** X12. The loop ends at the first status that the database refuses: the
    exception comes out of [retrieve_timeline], the statuses before it are
    stored and enqueued, and those after it are not looked at. *)
Theorem retrieve_timeline_stops_at_database_failure before e t after w code x :
  Forall (fun et => db_works (fst et)) before ->
  url_code t = Ok code ->
  merge_error e = Some x \/ (merge_error e = None /\ commit_error e = Some x) ->
  let r := retrieve_timeline (Ok (before ++ (e, t) :: after)) w in
  fst r = Raise x /\
  table (snd r) = foldl intake_table (table w) (map snd before) /\
  jobs (snd r) = jobs w ++ flat_map job_of (map snd before).
Proof.
  intros Hb Hc Hdb r. subst r.
  pose proof (retrieve_timeline_db_works before w Hb) as Hpre.
  revert Hpre. unfold retrieve_timeline, bind, call.
  rewrite for_each_app. intros ->.
  cbn [for_each fst snd]. unfold bind.
  match goal with |- context [parse_tweet e true t ?w1] =>
    destruct (parse_tweet_db_fails e true t w1 code x Hc Hdb) as [out ->] end.
  done.
Qed.

Lemma intake_absorbs k t t' r :
  merge_into (intake_obj k t) (merge_into (intake_obj k t') r)
  = merge_into (intake_obj k t) r.
Proof. reflexivity. Qed.

Lemma foldl_intake_lookup (timeline : list Status) (tbl : gmap str Biorxiv) (k : str) :
  foldl intake_table tbl timeline !! k =
    match last_for k timeline with
    | Some t => Some (merge_into (intake_obj k t) (default (new_instance k) (tbl !! k)))
    | None => tbl !! k
    end.
Proof.
  revert tbl. induction timeline as [| t timeline IH]; intros tbl; [done |].
  cbn [foldl last_for]. rewrite IH.
  destruct (last_for k timeline) as [t' |].
  - f_equal. unfold intake_table.
    destruct (url_code t) as [code | x]; [| done].
    destruct (decide (code = k)) as [-> | Hne].
    + rewrite lookup_insert_eq. cbn [from_option]. apply intake_absorbs.
    + by rewrite lookup_insert_ne.
  - unfold intake_table.
    destruct (url_code t) as [code | x]; [| done].
    destruct (decide (code = k)) as [-> | Hne].
    + by rewrite lookup_insert_eq.
    + by rewrite lookup_insert_ne.
Qed.

(** X13. After a backfill the row of a paper has the title and the creation
    time of the status that the timeline yields last for it (with a
    timeline that comes newest first, those of its oldest announcement);
    the row of a paper that the timeline does not mention is as it was. *)
Theorem retrieve_timeline_last_status_wins timeline w k :
  Forall (fun et => db_works (fst et)) timeline ->
  let w' := snd (retrieve_timeline (Ok timeline) w) in
  match last_for k (map snd timeline) with
  | Some t =>
      column title (table w') k = Some (tweet_title (full_text t)) /\
      column created (table w') k = Some (created_at t)
  | None => table w' !! k = table w !! k
  end.
Proof.
  intros H w'. subst w'. rewrite (retrieve_timeline_db_works timeline w H).
  cbn [snd table]. unfold column. rewrite foldl_intake_lookup.
  by destruct (last_for k (map snd timeline)).
Qed.

(** X14. Running the backfill again over the same timeline leaves the table as
    the first run left it and enqueues every job a second time. *)
Theorem retrieve_timeline_again timeline w :
  Forall (fun et => db_works (fst et)) timeline ->
  let once := snd (retrieve_timeline (Ok timeline) w) in
  let twice := snd (retrieve_timeline (Ok timeline) once) in
  table twice = table once /\
  jobs twice = jobs w ++ flat_map job_of (map snd timeline)
                      ++ flat_map job_of (map snd timeline).
Proof.
  intros H once twice. subst once twice.
  rewrite (retrieve_timeline_db_works timeline w H).
  rewrite (retrieve_timeline_db_works timeline _ H). cbn [snd table jobs].
  split; [| by rewrite <- app_assoc].
  apply map_eq. intros k. rewrite foldl_intake_lookup.
  destruct (last_for k (map snd timeline)) as [t |] eqn:Hl; [| done].
  rewrite foldl_intake_lookup, Hl. cbn [from_option]. f_equal.
Qed.

(** ** [process_paper] *)

(** X15. A worker run, however it ends, touches nothing but the row of its
    paper: every other row, the queue and the output are as before. *)
Theorem process_paper_touches_one_row e obj w :
  let w' := snd (process_paper e obj w) in
  jobs w' = jobs w /\
  stdout w' = stdout w /\
  forall j, j <> id obj -> table w' !! j = table w !! j.
Proof.
  intros w'. subst w'.
  destruct (fst (process_paper e obj w)) as [[] | x] eqn:Hr.
  - destruct (process_paper_ok e obj w Hr) as (td & obj' & _ & _ & ->).
    cbn [jobs stdout table set_table]. split; [done |]. split; [done |].
    intros j Hj. by rewrite lookup_insert_ne.
  - by rewrite (process_paper_raise e obj w x Hr).
Qed.

(** X16. When the download, the analysis and the lookup went well but the merge
    or the commit raises, the exception comes out of [process_paper] and
    the results of the run are not stored: the world is as before. *)
Theorem process_paper_database_failure e obj w td obj' x :
  List.find (fresh w) (names e) = Some td ->
  enriched e td obj = Ok obj' ->
  merge_error e = Some x \/ (merge_error e = None /\ commit_error e = Some x) ->
  process_paper e obj w = (Raise x, w).
Proof.
  intros Hd He Hdb. rewrite process_paper_eq, Hd, He. unfold persisted.
  destruct Hdb as [-> | [-> ->]]; cbn [fst snd]; by rewrite set_table_table.
Qed.

(** X17. A negative verdict never reaches the author lookup: whatever
    [find_authors] would return or raise, the run is the same. *)
Theorem process_paper_clean_ignores_lookup f e obj w :
  (forall td st d, analysis e (id obj) td = Ok (st, d) -> st = false) ->
  process_paper (with_find_authors f e) obj w = process_paper e obj w.
Proof.
  intros Hclean. rewrite !process_paper_eq. cbn [names with_find_authors].
  destruct (List.find (fresh w) (names e)) as [td |]; [| done].
  assert (He : enriched (with_find_authors f e) td obj = enriched e td obj).
  { unfold enriched.
    change (analysis (with_find_authors f e) (id obj) td) with (analysis e (id obj) td).
    destruct (analysis e (id obj) td) as [[st d] | x] eqn:Ha; [| done].
    rewrite (Hclean td st d Ha). done. }
  rewrite He. by destruct (enriched e td obj).
Qed.

(** X18. Intake followed by the run of the job it enqueued: the row of the
    paper has the creation time and title of the event, the verdict and
    payload of the analysis, and the authors found when the verdict is
    positive; with a negative verdict its [author_contact] is what was
    stored before the event came in. *)
Theorem intake_then_run e1 e2 v t w code :
  url_code t = Ok code ->
  db_works e1 ->
  let w1 := snd (parse_tweet e1 v t w) in
  let w2 := snd (process_paper e2 (intake_obj code t) w1) in
  fst (process_paper e2 (intake_obj code t) w1) = Ok tt ->
  last (jobs w1) = Some (intake_obj code t) /\
  exists td st d ac,
    analysis e2 code td = Ok (st, d) /\
    table w2 !! code =
      Some (Paper code (Some (created_at t)) (Some (tweet_title (full_text t)))
                  (Some st) (Some d) ac) /\
    (st = true -> exists a, find_authors e2 code = Ok a /\ ac = Some a) /\
    (st = false -> ac = column author_contact (table w) code).
Proof.
  intros Hc [Hm Hk] w1 w2 Hok. subst w1 w2.
  rewrite (parse_tweet_stores e1 v t w code Hc Hm Hk) in *. cbn [snd] in *.
  split; [cbn [jobs]; apply last_snoc |].
  destruct (process_paper_ok _ _ _ Hok) as (td & obj' & _ & He & ->).
  destruct (enriched_frame _ _ _ _ He) as (Hi & Ht & Hcr).
  destruct (enriched_results _ _ _ _ He) as (st & d & Ha & Hs & Hd & Hyes & Hno).
  cbn [id intake_obj table set_table] in *.
  exists td, st, d, (merge_attr (author_contact obj') (column author_contact (table w) code)).
  split; [done |]. split.
  - rewrite lookup_insert_eq, lookup_insert_eq. cbn [from_option]. f_equal.
    unfold merge_into. cbn [id created title parse_status parse_data author_contact
                           intake_obj merge_attr].
    rewrite Hi, Ht, Hcr, Hs, Hd. cbn [merge_attr created title intake_obj]. f_equal.
    unfold column. by destruct (table w !! code).
  - split.
    + intros Hst. destruct (Hyes Hst) as (a & Hf & Hac). exists a. by rewrite Hac.
    + intros Hst. by rewrite (Hno Hst).
Qed.

(** ** What the pipeline never does *)

Lemma keeps_column_merge {A} (f : Biorxiv -> option A) (src : Biorxiv) tbl :
  (forall dst, f (merge_into src dst) = merge_attr (f src) (f dst)) ->
  keeps_column f tbl
    (<[id src := merge_into src (default (new_instance (id src)) (tbl !! id src))]> tbl).
Proof.
  intros Hf i. unfold column.
  destruct (decide (id src = i)) as [<- | Hne]; [| by rewrite lookup_insert_ne].
  rewrite lookup_insert_eq, Hf.
  destruct (tbl !! id src) as [r |]; [| by intros [? ?]].
  cbn [from_option]. intros Hr. by destruct (f src).
Qed.

Lemma never_cleared_refl tbl : never_cleared tbl tbl.
Proof. unfold never_cleared, keeps_column. repeat split; auto. Qed.

Lemma never_cleared_trans tbl1 tbl2 tbl3 :
  never_cleared tbl1 tbl2 -> never_cleared tbl2 tbl3 -> never_cleared tbl1 tbl3.
Proof.
  unfold never_cleared, keeps_column.
  intros (A1 & B1 & C1 & D1 & E1 & F1) (A2 & B2 & C2 & D2 & E2 & F2).
  repeat split; eauto.
Qed.

Lemma never_cleared_merge (src : Biorxiv) tbl :
  never_cleared tbl
    (<[id src := merge_into src (default (new_instance (id src)) (tbl !! id src))]> tbl).
Proof.
  split.
  - intros i Hi. destruct (decide (id src = i)) as [<- | Hne].
    + rewrite lookup_insert_eq. by eexists.
    + by rewrite lookup_insert_ne.
  - repeat split; by apply keeps_column_merge.
Qed.

Lemma pipeline_step_never_cleared w w' :
  pipeline_step w w' -> never_cleared (table w) (table w').
Proof.
  intros [e v t w0 | e obj w0].
  - destruct (parse_tweet_world e v t w0) as [[-> _] | (code & _ & -> & _)].
    + apply never_cleared_refl.
    + apply (never_cleared_merge (intake_obj code t)).
  - destruct (fst (process_paper e obj w0)) as [[] | x] eqn:Hr.
    + destruct (process_paper_ok e obj w0 Hr) as (td & obj' & _ & He & ->).
      destruct (enriched_frame _ _ _ _ He) as (Hi & _).
      cbn [table set_table]. rewrite <- Hi. apply never_cleared_merge.
    + rewrite (process_paper_raise e obj w0 x Hr). apply never_cleared_refl.
Qed.

(** X19. Whatever events come in and whatever jobs run, in whatever
    environments and however they end, no row is ever removed and no column
    that holds a value is ever set back to NULL: a processed paper stays
    processed and recorded authors stay recorded. *)
Theorem pipeline_never_clears w w' :
  rtc pipeline_step w w' -> never_cleared (table w) (table w').
Proof.
  induction 1 as [w | w w1 w' Hstep _ IH].
  - apply never_cleared_refl.
  - eapply never_cleared_trans; [by apply pipeline_step_never_cleared | done].
Qed.

(** Rows stay under their own keys. *)
Lemma well_keyed_merge (src : Biorxiv) tbl :
  well_keyed tbl ->
  well_keyed (<[id src := merge_into src (default (new_instance (id src))
                                            (tbl !! id src))]> tbl).
Proof.
  intros Hk i r. destruct (decide (id src = i)) as [<- | Hne].
  - rewrite lookup_insert_eq. by intros [= <-].
  - rewrite lookup_insert_ne by done. apply Hk.
Qed.

Lemma well_keyed_step w w' :
  pipeline_step w w' -> well_keyed (table w) -> well_keyed (table w').
Proof.
  intros [e v t w0 | e obj w0] Hk.
  - destruct (parse_tweet_world e v t w0) as [[-> _] | (code & _ & -> & _)]; [done |].
    by apply (well_keyed_merge (intake_obj code t)).
  - destruct (fst (process_paper e obj w0)) as [[] | x] eqn:Hr.
    + destruct (process_paper_ok e obj w0 Hr) as (td & obj' & _ & He & ->).
      destruct (enriched_frame _ _ _ _ He) as (Hi & _).
      cbn [table set_table]. rewrite <- Hi. by apply well_keyed_merge.
    + by rewrite (process_paper_raise e obj w0 x Hr).
Qed.

(** ** The fixture [test_setup_cleanup] *)

Lemma delete_round e (i : str) (w : world) :
  well_keyed (table w) ->
  commit_error e = None ->
  (rows <- query_filter_by_id None i ;; db_session_delete_commit e rows) w
  = (Ok tt, set_table (delete i (table w)) w).
Proof.
  intros Hk Hc. unfold bind, query_filter_by_id, db_session_delete_commit.
  rewrite Hc. f_equal. f_equal.
  destruct (table w !! i) as [r |] eqn:Hr; simpl.
  - by rewrite (Hk _ _ Hr).
  - by rewrite delete_id.
Qed.

Lemma test_setup_cleanup_removes_row_eq e w :
  well_keyed (table w) ->
  commit_error e = None ->
  test_setup_cleanup e None w
  = (Ok tt, set_table (delete (lit "172627v1") (table w)) w).
Proof.
  intros Hk Hc.
  change (test_setup_cleanup e None w) with
    (bind (rows <- query_filter_by_id None (lit "172627v1") ;; db_session_delete_commit e rows)
          (fun _ => rows <- query_filter_by_id None (lit "172627v1") ;;
                    db_session_delete_commit e rows) w).
  unfold bind at 1. rewrite (delete_round e _ w Hk Hc).
  rewrite delete_round; [| | done].
  - unfold set_table. cbn [table jobs dirs stdout]. by rewrite delete_delete_eq.
  - intros i r. cbn [table set_table]. intros Hl.
    apply lookup_delete_Some in Hl as [_ Hl]. by apply Hk.
Qed.

(** X20. With the database at work the fixture returns normally and leaves the
    table without a row for 172627v1 and with every other row as it was;
    its second round finds nothing to delete, so the whole fixture does
    what its first round alone does. *)
Theorem test_setup_cleanup_removes_row e w :
  well_keyed (table w) ->
  commit_error e = None ->
  let r := test_setup_cleanup e None w in
  fst r = Ok tt /\
  table (snd r) !! lit "172627v1" = None /\
  (forall j, j <> lit "172627v1" -> table (snd r) !! j = table w !! j) /\
  jobs (snd r) = jobs w /\
  r = (rows <- query_filter_by_id None (lit "172627v1") ;;
       db_session_delete_commit e rows) w.
Proof.
  intros Hk Hc r. subst r. rewrite (test_setup_cleanup_removes_row_eq e w Hk Hc).
  cbn [fst snd table set_table jobs].
  split; [done |]. split; [apply lookup_delete_eq |].
  split; [| split; [done | symmetry; by apply delete_round]].
  intros j Hj. by rewrite lookup_delete_ne.
Qed.

(** When the query or the commit raises, the fixture raises the same
    exception and deletes nothing. *)
Theorem test_setup_cleanup_failure e query_error w x :
  query_error = Some x \/ (query_error = None /\ commit_error e = Some x) ->
  test_setup_cleanup e query_error w = (Raise x, w).
Proof.
  intros [-> | [-> Hc]]; [done |].
  unfold test_setup_cleanup, bind, query_filter_by_id, db_session_delete_commit.
  by rewrite Hc.
Qed.

(** X21. What [test_integration] reads back: after the fixture, a run of
    [process_paper] on the bare [Test(id='172627v1')] that returns normally
    leaves a row with no title and no creation time, the verdict and
    payload of the analysis, and as [author_contact] the authors found
    under a positive verdict and nothing under a negative one. *)
Theorem cleanup_then_run e1 e2 w :
  well_keyed (table w) ->
  commit_error e1 = None ->
  let code := lit "172627v1" in
  let w1 := snd (test_setup_cleanup e1 None w) in
  let w2 := snd (process_paper e2 (new_instance code) w1) in
  fst (process_paper e2 (new_instance code) w1) = Ok tt ->
  exists td st d ac,
    analysis e2 code td = Ok (st, d) /\
    table w2 !! code = Some (Paper code None None (Some st) (Some d) ac) /\
    (st = true -> exists a, find_authors e2 code = Ok a /\ ac = Some a) /\
    (st = false -> ac = None).
Proof.
  intros Hk Hc code w1 w2. subst w1 w2.
  rewrite (test_setup_cleanup_removes_row_eq e1 w Hk Hc). cbn [snd]. intros Hok.
  destruct (process_paper_ok _ _ _ Hok) as (td & obj' & _ & He & ->).
  destruct (enriched_frame _ _ _ _ He) as (Hi & Ht & Hcr).
  destruct (enriched_results _ _ _ _ He) as (st & d & Ha & Hs & Hd & Hyes & Hno).
  cbn [id new_instance table set_table] in *.
  exists td, st, d, (author_contact obj').
  split; [done |]. split.
  - rewrite lookup_insert_eq, lookup_delete_eq. cbn [from_option]. f_equal.
    unfold merge_into. rewrite Hi, Ht, Hcr, Hs, Hd.
    cbn [merge_attr created title parse_status parse_data author_contact new_instance].
    f_equal. by destruct (author_contact obj').
  - split.
    + intros Hst. destruct (Hyes Hst) as (a & Hf & Hac). by exists a.
    + intros Hst. by rewrite (Hno Hst).
Qed.

(** ** The further theorems at work on the scenarios *)

Lemma well_keyed_start : well_keyed (table Scenario.start).
Proof. intros i r H. unfold Scenario.start in H. cbn [table] in H. by rewrite lookup_empty in H. Qed.

Lemma well_keyed_flagged : well_keyed (table Backfill.flagged).
Proof.
  apply (well_keyed_step Scenario.once); [apply step_worker |].
  apply (well_keyed_step Scenario.start); [apply step_intake |].
  apply well_keyed_start.
Qed.

(** The id of the other paper. *)
Lemma url_code_has_no_slash_witness :
  url_code Backfill.other_paper = Ok (lit "190124v2") /\ 47 ∉ lit "190124v2".
Proof.
  split; [reflexivity |].
  apply (url_code_has_no_slash Backfill.other_paper). reflexivity.
Defined.

(** A link that ends in a slash gives the empty id. *)
Lemma url_code_last_segment_witness :
  url_code Backfill.trailing_slash = Ok [].
Proof.
  apply (url_code_last_segment Backfill.trailing_slash
           (lit "http://biorxiv.org/content/172627v1") []).
  - eexists _, _, _. repeat split; reflexivity.
  - apply not_elem_of_nil.
Defined.

(** The announcement of the known paper: one line, marker at position 10. *)
Lemma tweet_title_single_line_witness :
  first_token (full_text Scenario.known) 10 /\
  tweet_title (full_text Scenario.known) = take 10 (full_text Scenario.known).
Proof.
  assert (Hf : first_token (full_text Scenario.known) 10).
  { split; [by vm_compute |]. intros j Hj. unfold token_at.
    do 10 (destruct j as [| j]; [by vm_compute |]). lia. }
  split; [exact Hf |].
  apply (tweet_title_single_line (full_text Scenario.known) 10 Hf).
  apply (bool_decide_unpack _). by vm_compute.
Defined.

(** The text of two lines: the title is one line of at most 3 characters. *)
Lemma tweet_title_one_line_witness :
  (newline ∉ tweet_title (full_text Scenario.two_lines)) /\
  (List.length (tweet_title (full_text Scenario.two_lines)) <= 3)%nat.
Proof.
  apply (tweet_title_one_line (full_text Scenario.two_lines) 3). by vm_compute.
Defined.

(** A notice without a link. *)
Lemma tweet_title_plain_text_witness :
  tweet_title (lit "maintenance tonight") = lit "maintenance tonight".
Proof.
  apply (tweet_title_plain_text (lit "maintenance tonight")).
  - apply search_None. by vm_compute.
  - apply (bool_decide_unpack _). by vm_compute.
Defined.

(** The first announcement while the database is unreachable. *)
Lemma parse_tweet_database_failure_witness :
  fst (parse_tweet Backfill.db_down true Scenario.first_seen Scenario.start)
    = Raise (External (lit "connection refused")) /\
  table (snd (parse_tweet Backfill.db_down true Scenario.first_seen Scenario.start))
    = table Scenario.start /\
  jobs (snd (parse_tweet Backfill.db_down true Scenario.first_seen Scenario.start))
    = jobs Scenario.start.
Proof.
  apply (parse_tweet_database_failure Backfill.db_down true Scenario.first_seen
           Scenario.start Scenario.code).
  - reflexivity.
  - left. reflexivity.
Defined.

Lemma newest_first_db_works :
  Forall (fun et => db_works (fst et)) Backfill.newest_first.
Proof. repeat (constructor; [by split |]). constructor. Qed.

(** The timeline of four statuses: three jobs, four lines. *)
Lemma retrieve_timeline_jobs_in_order_witness :
  let r := retrieve_timeline (Ok Backfill.newest_first) Scenario.start in
  fst r = Ok tt /\
  jobs (snd r) = [intake_obj Scenario.code Scenario.seen_again;
                  intake_obj (lit "190124v2") Backfill.other_paper;
                  intake_obj Scenario.code Scenario.first_seen] /\
  List.length (stdout (snd r)) = 4%nat.
Proof.
  exact (retrieve_timeline_jobs_in_order Backfill.newest_first Scenario.start
           newest_first_db_works).
Defined.

(** The database goes away at the second of three statuses. *)
Lemma retrieve_timeline_stops_at_database_failure_witness :
  let r := retrieve_timeline
             (Ok ([(Scenario.lab true, Scenario.seen_again)]
                  ++ (Backfill.db_down, Backfill.other_paper)
                  :: [(Scenario.lab true, Scenario.first_seen)])) Scenario.start in
  fst r = Raise (External (lit "connection refused")) /\
  table (snd r) = intake_table (table Scenario.start) Scenario.seen_again /\
  jobs (snd r) = [intake_obj Scenario.code Scenario.seen_again].
Proof.
  apply (retrieve_timeline_stops_at_database_failure
           [(Scenario.lab true, Scenario.seen_again)] Backfill.db_down
           Backfill.other_paper [(Scenario.lab true, Scenario.first_seen)]
           Scenario.start (lit "190124v2")).
  - repeat (constructor; [by split |]). constructor.
  - reflexivity.
  - left. reflexivity.
Defined.

(** Newest first: the paper ends up with the title of its first
    announcement. *)
Lemma retrieve_timeline_last_status_wins_witness :
  column title
    (table (snd (retrieve_timeline (Ok Backfill.newest_first) Scenario.start)))
    Scenario.code = Some (lit "Old title").
Proof.
  pose proof (retrieve_timeline_last_status_wins Backfill.newest_first Scenario.start
                Scenario.code newest_first_db_works) as P.
  cbv zeta in P.
  change (last_for Scenario.code (map snd Backfill.newest_first))
    with (Some Scenario.first_seen) in P.
  exact (proj1 P).
Defined.

(** The same timeline taken in twice. *)
Lemma retrieve_timeline_again_witness :
  table (snd (retrieve_timeline (Ok Backfill.newest_first)
                (snd (retrieve_timeline (Ok Backfill.newest_first) Scenario.start))))
  = table (snd (retrieve_timeline (Ok Backfill.newest_first) Scenario.start)).
Proof.
  exact (proj1 (retrieve_timeline_again Backfill.newest_first Scenario.start
                  newest_first_db_works)).
Defined.

(** The commit fails after a run that flagged the paper and found its
    authors. *)
Lemma process_paper_database_failure_witness :
  process_paper Backfill.commit_fails Scenario.first_job Scenario.once
  = (Raise (External (lit "server closed the connection")), Scenario.once).
Proof.
  eapply (process_paper_database_failure Backfill.commit_fails Scenario.first_job
            Scenario.once).
  - vm_compute. reflexivity.
  - vm_compute. reflexivity.
  - right. split; reflexivity.
Defined.

(** A clean paper whose author page cannot be read. *)
Lemma process_paper_clean_ignores_lookup_witness :
  process_paper
    (with_find_authors (fun _ => Raise (External (lit "no author block")))
       (Scenario.lab false))
    Scenario.first_job Scenario.once
  = process_paper (Scenario.lab false) Scenario.first_job Scenario.once.
Proof.
  apply (process_paper_clean_ignores_lookup).
  intros td st d H. unfold analysis in H. simpl in H.
  injection H as <- _. reflexivity.
Defined.

(** The known paper, taken in and processed. *)
Lemma intake_then_run_witness :
  exists td st d ac,
    analysis (Scenario.lab true) Scenario.code td = Ok (st, d) /\
    table (snd (process_paper (Scenario.lab true)
                  (intake_obj Scenario.code Scenario.known)
                  (snd (parse_tweet (Scenario.lab true) true Scenario.known Scenario.start))))
      !! Scenario.code =
      Some (Paper Scenario.code (Some 1506000000%Z) (Some (lit "Some Title"))
                  (Some st) (Some d) ac) /\
    (st = true -> exists a, find_authors (Scenario.lab true) Scenario.code = Ok a /\
                            ac = Some a).
Proof.
  destruct (intake_then_run (Scenario.lab true) (Scenario.lab true) true Scenario.known
              Scenario.start Scenario.code eq_refl (conj eq_refl eq_refl))
    as (_ & td & st & d & ac & H1 & H2 & H3 & _).
  - vm_compute. reflexivity.
  - exists td, st, d, ac. split; [exact H1 |]. split; [exact H2 | exact H3].
Defined.

(** The clean rerun after a flagged run: nothing that was stored is gone. *)
Lemma pipeline_never_clears_witness :
  never_cleared (table Scenario.once)
    (table (snd (process_paper (Scenario.lab false) Scenario.first_job Backfill.flagged))).
Proof.
  apply (pipeline_never_clears Scenario.once).
  eapply rtc_l; [apply (step_worker (Scenario.lab true) Scenario.first_job) |].
  eapply rtc_l; [apply (step_worker (Scenario.lab false) Scenario.first_job) |].
  apply rtc_refl.
Defined.

(** The fixture on a table that holds the flagged paper. *)
Lemma test_setup_cleanup_removes_row_witness :
  let r := test_setup_cleanup (Scenario.lab true) None Backfill.flagged in
  fst r = Ok tt /\
  table (snd r) !! lit "172627v1" = None /\
  (forall j, j <> lit "172627v1" -> table (snd r) !! j = table Backfill.flagged !! j) /\
  jobs (snd r) = jobs Backfill.flagged /\
  r = (rows <- query_filter_by_id None (lit "172627v1") ;;
       db_session_delete_commit (Scenario.lab true) rows) Backfill.flagged.
Proof.
  exact (test_setup_cleanup_removes_row (Scenario.lab true) Backfill.flagged
           well_keyed_flagged eq_refl).
Defined.

(** The fixture when the commit fails. *)
Lemma test_setup_cleanup_failure_witness :
  test_setup_cleanup Backfill.commit_fails None Backfill.flagged
  = (Raise (External (lit "server closed the connection")), Backfill.flagged).
Proof.
  apply (test_setup_cleanup_failure Backfill.commit_fails None Backfill.flagged).
  right. split; reflexivity.
Defined.

(** The fixture, then the run of [test_integration]. *)
Lemma cleanup_then_run_witness :
  exists td st d ac,
    analysis (Scenario.lab true) (lit "172627v1") td = Ok (st, d) /\
    table (snd (process_paper (Scenario.lab true) Backfill.preobj
                  (snd (test_setup_cleanup (Scenario.lab true) None Backfill.flagged))))
      !! lit "172627v1" =
      Some (Paper (lit "172627v1") None None (Some st) (Some d) ac) /\
    (st = true -> exists a, find_authors (Scenario.lab true) (lit "172627v1") = Ok a /\
                            ac = Some a).
Proof.
  destruct (cleanup_then_run (Scenario.lab true) (Scenario.lab true) Backfill.flagged
              well_keyed_flagged eq_refl)
    as (td & st & d & ac & H1 & H2 & H3 & _).
  - vm_compute. reflexivity.
  - exists td, st, d, ac. split; [exact H1 |]. split; [exact H2 | exact H3].
Defined.

(** The paper flagged by one run and found clean by the next: its row is
    clean, keeps the authors, and the paper counts as flagged. *)
Lemma author_contact_iff_ever_flagged_witness :
  reachable_flagged {[Scenario.code]} clean_rerun /\
  (is_Some (author_contact
              (Paper Scenario.code (Some 1506000000%Z) (Some (lit "Old title"))
                     (Some false) (Some (VList [VInt 2])) (Some Scenario.authors)))
   <-> Scenario.code ∈ ({[Scenario.code]} : gset str)).
Proof.
  assert (Hreach : reachable_flagged {[Scenario.code]} clean_rerun).
  { apply (flagged_worker {[Scenario.code]} {[Scenario.code]} (Scenario.lab false)
             Scenario.first_job Backfill.flagged).
    - apply (flagged_worker ∅ {[Scenario.code]} (Scenario.lab true)
               Scenario.first_job Scenario.once).
      + apply (flagged_intake ∅ (Scenario.lab true) true Scenario.first_seen Scenario.start).
        apply flagged_start.
      + vm_compute. apply list_elem_of_here.
      + assert (Hf : flags (Scenario.lab true) Scenario.first_job Scenario.once = true)
          by (vm_compute; reflexivity).
        rewrite Hf. symmetry. apply union_empty_r_L.
    - vm_compute. apply list_elem_of_here.
    - assert (Hf : flags (Scenario.lab false) Scenario.first_job Backfill.flagged = false)
        by (vm_compute; reflexivity).
      rewrite Hf. reflexivity. }
  split; [exact Hreach |].
  destruct (author_contact_iff_ever_flagged _ _ Hreach) as [Hrows _].
  apply (Hrows Scenario.code). vm_compute. reflexivity.
Defined.
